(** * Cancellation analysis of the pre-sale transaction table

    A shallow embedding of the two notebook cells of
    [1_basic_data_exploration] that work on the column 解約情形 of
    [transaction_df]:

    - the statistics cell (a6f706a1): [total_transactions],
      [normal_transactions], [cancelled_transactions] and the two printed
      percentages;
    - the pattern-analysis cell (2fc5b467): [cancelled_data] and the
      dictionary [patterns] built by the loop over [cancelled_data.head(20)].

    Further cells of the same notebook that read the tables are embedded
    after these: the value counts and the samples of the column, the match
    rate of the identifiers, the percentages of the distributions, the
    null rates and the completeness of the key fields, and the cells of
    both notebooks that load the tables.

    Python strings are sequences of Unicode code points, and [len] counts
    code points, so a string is a list of code points here (not of bytes).
    A cell of the column is [None] for a missing value (NaN) and [Some s]
    for a text, on which [str] is the identity. The dictionary [patterns]
    is a finite map from the label string to a counter; the order of
    insertion, which only decides the order of the printed lines, is not
    kept. *)

From Stdlib Require Import ZArith NArith QArith List Ascii String Decimal
  DecimalNat.
From stdpp Require Import base option list list_numbers gmap fin_maps.

Local Open Scope nat_scope.

(** ** Strings *)

Abbreviation pystr := (list N).

(** An ASCII literal as a list of code points. *)
Definition str_of_ascii (s : string) : pystr :=
  map N_of_ascii (list_ascii_of_string s).

(** The literal '全部解約'. *)
Definition marker : pystr := [20840; 37096; 35299; 32004]%N.

(** The literal ';'. *)
Definition semicolon : N := 59%N.

(** The literal '位數字', the suffix of a label of [patterns]. *)
Definition label_suffix : pystr := [20301; 25976; 23383]%N.

(** [s.startswith(p)]. *)
Fixpoint startswith (p s : pystr) : bool :=
  match p, s with
  | [], _ => true
  | _ :: _, [] => false
  | a :: p', b :: s' => (a =? b)%N && startswith p' s'
  end.

(** [sub in s]. *)
Fixpoint str_in (sub s : pystr) : bool :=
  startswith sub s ||
  match s with
  | [] => false
  | _ :: s' => str_in sub s'
  end.

(** [s.replace(old, '')]: the occurrences of [old] are found from left to
    right without overlap and removed. [skip] counts the characters of
    the occurrence being removed that are still ahead. *)
Fixpoint str_remove_go (old : pystr) (skip : nat) (s : pystr) : pystr :=
  match s with
  | [] => []
  | c :: s' =>
      match skip with
      | S k => str_remove_go old k s'
      | O =>
          if startswith old s
          then str_remove_go old (length old - 1) s'
          else c :: str_remove_go old 0 s'
      end
  end.

Definition str_remove (old s : pystr) : pystr :=
  match old with
  | [] => s
  | _ :: _ => str_remove_go old 0 s
  end.

(** [c.isspace()]: the code points Python treats as whitespace. *)
Definition isspace (c : N) : bool :=
  ((9 <=? c) && (c <=? 13) || (28 <=? c) && (c <=? 32)
   || (c =? 133) || (c =? 160) || (c =? 5760)
   || (8192 <=? c) && (c <=? 8202)
   || (c =? 8232) || (c =? 8233) || (c =? 8239) || (c =? 8287)
   || (c =? 12288))%N.

Fixpoint lstrip (s : pystr) : pystr :=
  match s with
  | [] => []
  | c :: s' => if isspace c then lstrip s' else s
  end.

Definition rstrip (s : pystr) : pystr := rev (lstrip (rev s)).

(** [s.strip()]. *)
Definition strip (s : pystr) : pystr := rstrip (lstrip s).

(** [s.split(sep)[0]]: the characters before the first separator. *)
Fixpoint split_first (sep : N) (s : pystr) : pystr :=
  match s with
  | [] => []
  | c :: s' => if (c =? sep)%N then [] else c :: split_first sep s'
  end.

(** The decimal rendering of a length inside an f-string. *)
Fixpoint uint_chars (d : Decimal.uint) : pystr :=
  match d with
  | Decimal.Nil => []
  | Decimal.D0 d => 48%N :: uint_chars d
  | Decimal.D1 d => 49%N :: uint_chars d
  | Decimal.D2 d => 50%N :: uint_chars d
  | Decimal.D3 d => 51%N :: uint_chars d
  | Decimal.D4 d => 52%N :: uint_chars d
  | Decimal.D5 d => 53%N :: uint_chars d
  | Decimal.D6 d => 54%N :: uint_chars d
  | Decimal.D7 d => 55%N :: uint_chars d
  | Decimal.D8 d => 56%N :: uint_chars d
  | Decimal.D9 d => 57%N :: uint_chars d
  end.

Definition str_of_nat (n : nat) : pystr := uint_chars (Nat.to_uint n).

(** [f"{date_len}位數字"]. *)
Definition pattern_label (date_len : nat) : pystr :=
  str_of_nat date_len ++ label_suffix.

(** ** Numbers

    [.sum()] of a boolean column is a numpy integer, and the quotient of a
    numpy integer by an integer is a numpy float: a zero divisor does not
    raise, the quotient is nan for 0/0 and inf for a positive dividend
    (the warning is silenced by [warnings.filterwarnings('ignore')]).
    A finite quotient is kept as the exact rational, without rounding. *)

Inductive float64 : Type :=
  | Finite (q : Q)
  | Inf
  | NaN.

(** [a / b] on counts. *)
Definition true_divide (a b : nat) : float64 :=
  match b, a with
  | O, O => NaN
  | O, S _ => Inf
  | S _, _ => Finite (Z.of_nat a # Pos.of_nat b)
  end.

(** [x * 100]. *)
Definition times100 (x : float64) : float64 :=
  match x with
  | Finite q => Finite (q * 100)
  | Inf => Inf
  | NaN => NaN
  end.

(** ** The column 解約情形 *)

Abbreviation cell := (option pystr).
Abbreviation column := (list (option pystr)).

Definition isnull (x : cell) : bool :=
  match x with
  | None => true
  | Some _ => false
  end.

Definition notna (x : cell) : bool := negb (isnull x).

(** [.sum()] of a boolean column. *)
Definition bool_sum (l : list bool) : nat := sum_list_with Nat.b2n l.

(** *** Statistics cell *)

(** [len(transaction_df)]. *)
Definition total_transactions (df : column) : nat := length df.

(** [transaction_df['解約情形'].isnull().sum()]. *)
Definition normal_transactions (df : column) : nat :=
  bool_sum (isnull <$> df).

(** [transaction_df['解約情形'].notna().sum()]. *)
Definition cancelled_transactions (df : column) : nat :=
  bool_sum (notna <$> df).

(** [normal_transactions/total_transactions]. *)
Definition normal_ratio (df : column) : float64 :=
  true_divide (normal_transactions df) (total_transactions df).

(** [cancelled_transactions/total_transactions]. *)
Definition cancelled_ratio (df : column) : float64 :=
  true_divide (cancelled_transactions df) (total_transactions df).

(** [cancelled_transactions/total_transactions*100], the percentage that is
    printed and stored as ['cancellation_rate']. *)
Definition cancellation_rate (df : column) : float64 :=
  times100 (cancelled_ratio df).

(** What the statistics cell reports. *)
Record Summary : Type := mkSummary {
  s_total : nat;
  s_normal : nat;
  s_cancelled : nat;
  s_normal_pct : float64;
  s_cancelled_pct : float64
}.

Definition statistics (df : column) : Summary :=
  {| s_total := total_transactions df;
     s_normal := normal_transactions df;
     s_cancelled := cancelled_transactions df;
     s_normal_pct := times100 (normal_ratio df);
     s_cancelled_pct := cancellation_rate df |}.

(** *** Pattern-analysis cell *)

(** [transaction_df[transaction_df['解約情形'].notna()]['解約情形']]. *)
Definition cancelled_data (df : column) : list pystr := omap id df.

(** [patterns.get(pattern, 0)]. *)
Definition patterns_get (patterns : gmap pystr nat) (pattern : pystr) : nat :=
  default 0 (patterns !! pattern).

(** The label the loop body increments for [cancel_str], if any:
    the two [if]s and the computation of [pattern]. *)
Definition date_pattern (cancel_str : pystr) : option pystr :=
  if str_in marker cancel_str then
    let date_part := strip (str_remove marker cancel_str) in
    match date_part with
    | [] => None
    | _ :: _ =>
        let date_len := length (split_first semicolon date_part) in
        Some (pattern_label date_len)
    end
  else None.

(** One iteration of the loop, as a transformation of [patterns]. *)
Definition pattern_step (patterns : gmap pystr nat) (cancel_str : pystr)
  : gmap pystr nat :=
  if str_in marker cancel_str then
    let date_part := strip (str_remove marker cancel_str) in
    match date_part with
    | [] => patterns
    | _ :: _ =>
        let date_len := length (split_first semicolon date_part) in
        let pattern := pattern_label date_len in
        <[pattern := patterns_get patterns pattern + 1]> patterns
    end
  else patterns.

(** [for cancel_str in cancelled_data.head(20): ...] from [patterns = {}]. *)
Definition patterns_of (data : list pystr) : gmap pystr nat :=
  foldl pattern_step ∅ (take 20 data).

(** The whole cell: under [if cancelled_transactions > 0] the dictionary is
    built; otherwise nothing is. *)
Definition pattern_analysis (df : column) : option (gmap pystr nat) :=
  if 0 <? cancelled_transactions df
  then Some (patterns_of (cancelled_data df))
  else None.

(** ** One record

    The notebook has no per-record function. [cancellation_event] gathers,
    under the field names of the data model, what the two cells derive from
    one cell of the column:
    - [is_cancelled]: whether the statistics cell counts the record as
      cancelled, that is [notna];
    - [cancellation_count]: what the record adds to
      [cancelled_transactions];
    - [cancelled_date]: the notebook never converts a date token into a
      date (the token is only measured with [len]), so no record has one;
    - [token_pattern]: the label of [patterns] the record increments when
      the loop visits it. *)

Record date : Type := mkdate { year : Z; month : Z; day : Z }.

Record CancellationEvent : Type := mkEvent {
  raw_text : cell;
  is_cancelled : bool;
  cancelled_date : option date;
  cancellation_count : nat;
  token_pattern : option pystr
}.

Definition cancellation_event (x : cell) : CancellationEvent :=
  {| raw_text := x;
     is_cancelled := notna x;
     cancelled_date := None;
     cancellation_count := cancelled_transactions [x];
     token_pattern := x ≫= date_pattern |}.

Definition sample1 : pystr := marker ++ str_of_ascii "1120315".
Definition sample2 : pystr :=
  marker ++ str_of_ascii "1120315;" ++ marker ++ str_of_ascii "1130101".
Definition sampleABC : pystr := marker ++ str_of_ascii "ABC".

(** A text that is present and does not contain the marker. *)
Definition unmarked_sample : pystr := str_of_ascii "1120315".

(** A column of four records and a reordering of it. *)
Definition sample_column : column :=
  [Some sample1; None; Some sampleABC; Some sample2].
Definition sample_column' : column :=
  [None; Some sample2; Some sample1; Some sampleABC].

(** Twenty equal present records. *)
Definition twenty_records : column := replicate 20 (Some sample1).

(** A text made of the marker and a blank. *)
Definition blank_sample : pystr := marker ++ str_of_ascii " ".

(** The effect of one visit of the loop on [patterns], given the label
    chosen for the visited string. *)
Definition bump (label : option pystr) (patterns : gmap pystr nat)
  : gmap pystr nat :=
  match label with
  | Some pattern => <[pattern := patterns_get patterns pattern + 1]> patterns
  | None => patterns
  end.

(** ** Shapes of input used in the statements *)

(** A character that cannot start an occurrence of the marker. *)
Definition plain (c : N) : bool := negb (c =? 20840)%N.

(** [c] is an ASCII decimal digit. *)
Definition isdigit (c : N) : bool := ((48 <=? c) && (c <=? 57))%N.

Definition digits (t : pystr) : Prop := Forall (λ c, isdigit c = true) t.

(** A character of a date part made of digits and separators. *)
Definition token_char (c : N) : bool := isdigit c || (c =? semicolon)%N.

(** [';'.join('全部解約' + t for t in toks)]: sub-records that each carry
    the marker and a token. *)
Fixpoint sub_records (toks : list pystr) : pystr :=
  match toks with
  | [] => []
  | t :: rest =>
      match rest with
      | [] => marker ++ t
      | _ :: _ => marker ++ t ++ semicolon :: sub_records rest
      end
  end.

(** [';'.join(toks)]. *)
Fixpoint join_tokens (toks : list pystr) : pystr :=
  match toks with
  | [] => []
  | t :: rest =>
      match rest with
      | [] => t
      | _ :: _ => t ++ semicolon :: join_tokens rest
      end
  end.

(** ** How a cell of the table is loaded

    Both tables come from [pd.read_csv(path, encoding='utf-8')], with the
    default handling of missing values: a field whose text is one of the
    default NA spellings, the empty field first of all, is loaded as NaN;
    any other text is kept as it is. *)

Definition default_na_values : list pystr :=
  [ [];
    str_of_ascii "#N/A"; str_of_ascii "#N/A N/A"; str_of_ascii "#NA";
    str_of_ascii "-1.#IND"; str_of_ascii "-1.#QNAN"; str_of_ascii "-NaN";
    str_of_ascii "-nan"; str_of_ascii "1.#IND"; str_of_ascii "1.#QNAN";
    str_of_ascii "<NA>"; str_of_ascii "N/A"; str_of_ascii "NA";
    str_of_ascii "NULL"; str_of_ascii "NaN"; str_of_ascii "None";
    str_of_ascii "n/a"; str_of_ascii "nan"; str_of_ascii "null" ].

(** The cell [pd.read_csv] makes of the text of a field. *)
Definition read_csv_cell (field : pystr) : cell :=
  if bool_decide (field ∈ default_na_values) then None else Some field.

(** ** Other cells that read the same columns *)

(** [col.dropna()]. *)
Definition dropna (col : column) : list pystr := omap id col.

(** [col.value_counts()]: for each value that occurs in a non-null cell,
    the number of cells that hold it. The order of the result (by
    decreasing count) is not kept. *)
Definition value_counts (col : column) : gmap pystr nat :=
  foldl (λ counts s, <[s := patterns_get counts s + 1]> counts) ∅ (dropna col).

(** [cancellation_counts = transaction_df['解約情形'].value_counts()]. *)
Definition cancellation_counts (df : column) : gmap pystr nat := value_counts df.

(** [transaction_df[transaction_df['解約情形'].notna()]['解約情形'].head(10)]. *)
Definition cancellation_samples (df : column) : list pystr :=
  take 10 (cancelled_data df).

(** The numbered lines [樣本{i+1}: {cancel}] printed for the samples. *)
Definition sample_lines (df : column) : list (nat * pystr) :=
  imap (λ i cancel, (i + 1, cancel)) (cancellation_samples df).

(** The outcome of an expression that may raise. *)
Inductive pyresult (A : Type) : Type :=
  | Returned (a : A)
  | ZeroDivisionError
  | KeyError.
Arguments Returned {A} a.
Arguments ZeroDivisionError {A}.
Arguments KeyError {A}.

(** [a / b] on Python integers: a float, kept as the exact rational; a zero
    divisor raises. *)
Definition int_true_divide (a b : nat) : pyresult Q :=
  match b with
  | O => ZeroDivisionError
  | S _ => Returned (Z.of_nat a # Pos.of_nat b)
  end.

(** [set(col.dropna())]. *)
Definition id_set (col : column) : gset pystr := list_to_set (dropna col).

(** [len(community_ids & transaction_ids) /
     max(len(community_ids), len(transaction_ids)) * 100], where
    [community_ids = set(community_df['編號'].dropna())] and
    [transaction_ids = set(transaction_df['備查編號'].dropna())]. *)
Definition match_rate (community_col transaction_col : column) : pyresult Q :=
  let community_ids := id_set community_col in
  let transaction_ids := id_set transaction_col in
  match int_true_divide (size (community_ids ∩ transaction_ids))
          (Nat.max (size community_ids) (size transaction_ids)) with
  | Returned q => Returned (q * 100)%Q
  | ZeroDivisionError => ZeroDivisionError
  | KeyError => KeyError
  end.

(** Two columns of identifiers with one identifier in common. *)
Definition community_ids_sample : column :=
  [Some (str_of_ascii "A1"); Some (str_of_ascii "A2"); None].
Definition transaction_ids_sample : column :=
  [Some (str_of_ascii "A2"); Some (str_of_ascii "A2"); Some (str_of_ascii "B7")].

(** The first column with its rows reordered and one row repeated. *)
Definition community_ids_sample' : column :=
  [None; Some (str_of_ascii "A2"); Some (str_of_ascii "A1");
   Some (str_of_ascii "A2")].

(** [percentage = count / len(df) * 100] in the loops over
    [df[...].value_counts().head(10).items()]: the loop hands out Python
    integers, so a zero divisor would raise. *)
Definition percentage (count : nat) (df : column) : pyresult Q :=
  match int_true_divide count (length df) with
  | Returned q => Returned (q * 100)%Q
  | ZeroDivisionError => ZeroDivisionError
  | KeyError => KeyError
  end.

(** ** The cells that load the tables

    [pd.read_csv] is the only access to the files: a file system gives, for
    each of the three paths, the table read or the exception raised. The
    paths are built from the same directory and file names in both
    notebooks. A variable of the kernel is [None] while it is unbound;
    [basic_stats] may also be bound to Python's [None]. *)

Inductive csv_file : Type :=
  | community_csv      (* data/raw/community_11006_11406.csv *)
  | transaction_csv    (* data/raw/transaction_11006_11406.csv *)
  | summary_csv.       (* data/processed/01_basic_analysis_summary.csv *)

Inductive exn : Type :=
  | FileNotFoundError
  | OtherException.

Inductive message : Type :=
  | msg_start                (* 載入資料檔案... *)
  | msg_community_loaded     (* 預售社區資料載入成功 *)
  | msg_transaction_loaded   (* 逐筆交易資料載入成功 *)
  | msg_summary_loaded       (* 基礎分析結果載入成功 *)
  | msg_summary_missing      (* 未找到基礎分析結果，將重新計算基礎統計 *)
  | msg_file_not_found       (* 檔案載入失敗 *)
  | msg_check_folder         (* 請確認檔案是否放置在 ../data/raw/ 資料夾中 *)
  | msg_load_error.          (* 載入過程發生錯誤 *)

Record kernel (frame : Type) : Type := mkKernel {
  community_df : option frame;
  transaction_df : option frame;
  basic_stats : option (option frame)
}.
Arguments mkKernel {frame} _ _ _.
Arguments community_df {frame} _.
Arguments transaction_df {frame} _.
Arguments basic_stats {frame} _.

(** The state after a cell: the variables, the lines printed and the files
    [pd.read_csv] was called on, in order. *)
Record run (frame : Type) : Type := mkRun {
  vars : kernel frame;
  printed : list message;
  opened : list csv_file
}.
Arguments mkRun {frame} _ _ _.
Arguments vars {frame} _.
Arguments printed {frame} _.
Arguments opened {frame} _.

(** The two [except] clauses of the outer [try]. *)
Definition handler (e : exn) : list message :=
  match e with
  | FileNotFoundError => [msg_file_not_found; msg_check_folder]
  | OtherException => [msg_load_error]
  end.

(** The loading cell of the exploration notebook (57153330). *)
Definition load_exploration {frame : Type}
    (read_csv : csv_file → frame + exn) (k : kernel frame) : run frame :=
  match read_csv community_csv with
  | inl c =>
      let k1 := mkKernel (Some c) (transaction_df k) (basic_stats k) in
      match read_csv transaction_csv with
      | inl t =>
          mkRun (mkKernel (Some c) (Some t) (basic_stats k))
            [msg_start; msg_community_loaded; msg_transaction_loaded]
            [community_csv; transaction_csv]
      | inr e =>
          mkRun k1 ([msg_start; msg_community_loaded] ++ handler e)
            [community_csv; transaction_csv]
      end
  | inr e => mkRun k (msg_start :: handler e) [community_csv]
  end.

(** The loading cell of the cancellation notebook (0a2d684c):
    [transaction_df] is read from [community_path] and [community_df] from
    [transaction_path]; the summary is read in an inner [try] that only
    catches [FileNotFoundError]. *)
Definition load_cancellation {frame : Type}
    (read_csv : csv_file → frame + exn) (k : kernel frame) : run frame :=
  match read_csv community_csv with
  | inl c =>
      let k1 := mkKernel (community_df k) (Some c) (basic_stats k) in
      match read_csv transaction_csv with
      | inl t =>
          let k2 := mkKernel (Some t) (Some c) (basic_stats k) in
          match read_csv summary_csv with
          | inl b =>
              mkRun (mkKernel (Some t) (Some c) (Some (Some b)))
                [msg_transaction_loaded; msg_community_loaded;
                 msg_summary_loaded]
                [community_csv; transaction_csv; summary_csv]
          | inr FileNotFoundError =>
              mkRun (mkKernel (Some t) (Some c) (Some None))
                [msg_transaction_loaded; msg_community_loaded;
                 msg_summary_missing]
                [community_csv; transaction_csv; summary_csv]
          | inr OtherException =>
              mkRun k2
                ([msg_transaction_loaded; msg_community_loaded]
                 ++ handler OtherException)
                [community_csv; transaction_csv; summary_csv]
          end
      | inr e =>
          mkRun k1 (msg_transaction_loaded :: handler e)
            [community_csv; transaction_csv]
      end
  | inr e => mkRun k (handler e) [community_csv]
  end.

(** A file system over tables that are single columns, with no summary
    file, and a kernel with nothing bound. *)
Definition sample_files (f : csv_file) : column + exn :=
  match f with
  | community_csv => inl community_ids_sample
  | transaction_csv => inl transaction_ids_sample
  | summary_csv => inr FileNotFoundError
  end.

Definition fresh_kernel : kernel column := mkKernel None None None.

Definition no_files (f : csv_file) : column + exn := inr FileNotFoundError.

(** ** The quality of the key fields

    A table is its number of rows, [len(df)], and its columns by name.
    Only the nullness of a cell is looked at here, so the cells of every
    column are kept as optional texts whatever their dtype. *)

Record DataFrame : Type := mkFrame {
  nrows : nat;
  columns : gmap pystr column
}.

(** Every column has one cell per row. *)
Definition well_formed (df : DataFrame) : Prop :=
  map_Forall (λ _ col, length col = nrows df) (columns df).

(** The literal list [community_key_fields]:
    編號, 社區名稱, 縣市, 行政區, 戶數, 銷售起始年季. *)
Definition community_key_fields : list pystr :=
  [[32232; 34399];
   [31038; 21312; 21517; 31281];
   [32291; 24066];
   [34892; 25919; 21312];
   [25142; 25976];
   [37559; 21806; 36215; 22987; 24180; 23395]]%N.

(** The literal list [transaction_key_fields]:
    備查編號, 縣市, 行政區, 交易日期, 交易年季, 交易總價, 建物單價. *)
Definition transaction_key_fields : list pystr :=
  [[20633; 26597; 32232; 34399];
   [32291; 24066];
   [34892; 25919; 21312];
   [20132; 26131; 26085; 26399];
   [20132; 26131; 24180; 23395];
   [20132; 26131; 32317; 20729];
   [24314; 29289; 21934; 20729]]%N.

(** [df[field].isnull().sum()] on a column. *)
Definition null_count (col : column) : nat := bool_sum (isnull <$> col).

(** [null_rate = null_count / len(df) * 100] for [df[field]]; a name that
    is not a column raises [KeyError]. *)
Definition null_rate (df : DataFrame) (field : pystr) : pyresult float64 :=
  match columns df !! field with
  | None => KeyError
  | Some col => Returned (times100 (true_divide (null_count col) (nrows df)))
  end.

(** [df[key_fields]]: all the named columns, or [KeyError]. *)
Definition select (df : DataFrame) (key_fields : list pystr)
  : pyresult (list column) :=
  match mapM (λ field, columns df !! field) key_fields with
  | Some cols => Returned cols
  | None => KeyError
  end.

(** Floats with both infinities, for an expression that subtracts. *)
Inductive sfloat : Type :=
  | SFinite (q : Q)
  | SPosInf
  | SNegInf
  | SNaN.

(** [1 - x]. *)
Definition one_minus (x : float64) : sfloat :=
  match x with
  | Finite q => SFinite (1 - q)
  | Inf => SNegInf
  | NaN => SNaN
  end.

(** [x * 100]. *)
Definition stimes100 (x : sfloat) : sfloat :=
  match x with
  | SFinite q => SFinite (q * 100)
  | SPosInf => SPosInf
  | SNegInf => SNegInf
  | SNaN => SNaN
  end.

(** [(1 - df[key_fields].isnull().sum().sum()
         / (len(df) * len(key_fields))) * 100]. *)
Definition completeness (df : DataFrame) (key_fields : list pystr)
  : pyresult sfloat :=
  match select df key_fields with
  | Returned cols =>
      Returned
        (stimes100
           (one_minus
              (true_divide (sum_list (null_count <$> cols))
                 (nrows df * length key_fields))))
  | ZeroDivisionError => ZeroDivisionError
  | KeyError => KeyError
  end.

(** A table of two rows with the key fields of the community table: the
    first field has no null, each of the others has one. *)
Definition sample_frame : DataFrame :=
  mkFrame 2
    (list_to_map
       (zip community_key_fields
          ([Some (str_of_ascii "A1"); Some (str_of_ascii "A2")]
           :: replicate 5 [Some (str_of_ascii "x"); None]))).

(** [col.nunique()]: the number of distinct non-null values. *)
Definition nunique (col : column) : nat := size (id_set col).

(** ** Measures used in the statements *)

(** [sum(m.values())] for a dictionary of counters. *)
Definition counter_total (m : gmap pystr nat) : nat :=
  map_fold (λ _ v acc, v + acc) 0 m.

(** The number of strings of [l] for which the loop increments the counter
    of [pattern]. *)
Definition label_count (pattern : pystr) (l : list pystr) : nat :=
  length (filter (λ s, date_pattern s = Some pattern) l).

(** The number of strings of [l] for which the loop increments a counter. *)
Definition labelled_count (l : list pystr) : nat :=
  length (filter (λ s, is_Some (date_pattern s)) l).

(** ** Examples *)

Example marker_in_sample :
  str_in marker (marker ++ str_of_ascii "1120315") = true.
Proof. reflexivity. Qed.

Example remove_sample :
  str_remove marker (marker ++ str_of_ascii "1120315;" ++ marker ++ str_of_ascii "1130101")
  = str_of_ascii "1120315;1130101".
Proof. reflexivity. Qed.

Example strip_sample : strip (str_of_ascii "  ABC ") = str_of_ascii "ABC".
Proof. reflexivity. Qed.

Example label_sample : pattern_label 7 = 55%N :: label_suffix.
Proof. reflexivity. Qed.

Example patterns_sample :
  pattern_analysis [Some sample1; None; Some sampleABC; Some sample2]
  = Some {[ pattern_label 7 := 2; pattern_label 3 := 1 ]}.
Proof. vm_compute. reflexivity. Qed.

Example statistics_sample :
  statistics [Some sample1; None; Some sampleABC; Some sample2]
  = mkSummary 4 1 3 (Finite (100 # 4)) (Finite (300 # 4)).
Proof. reflexivity. Qed.

Example sub_records_sample :
  sub_records [str_of_ascii "1120315"; str_of_ascii "1130101"] = sample2.
Proof. reflexivity. Qed.

(** ** Facts about the string operations *)

Section Strings.

Lemma isdigit_token_char c : isdigit c = true → token_char c = true.
Proof. unfold token_char. intros ->. reflexivity. Qed.

Lemma token_char_range c : token_char c = true → (48 ≤ c ≤ 59)%N.
Proof.
  unfold token_char, isdigit, semicolon.
  rewrite orb_true_iff, andb_true_iff, !N.leb_le, N.eqb_eq. lia.
Qed.

Lemma token_char_plain c : token_char c = true → plain c = true.
Proof.
  intros [Hlo Hhi]%token_char_range. unfold plain.
  apply negb_true_iff, N.eqb_neq. lia.
Qed.

Lemma token_char_not_space c : token_char c = true → isspace c = false.
Proof.
  intros [Hlo Hhi]%token_char_range. unfold isspace.
  rewrite (proj2 (N.leb_gt c 13)), (proj2 (N.leb_gt c 32)),
    (proj2 (N.leb_gt 8192 c)) by lia.
  rewrite !(proj2 (N.eqb_neq c _)) by lia.
  by rewrite !andb_false_r.
Qed.

Lemma isdigit_not_semicolon c : isdigit c = true → (c =? semicolon)%N = false.
Proof.
  unfold isdigit, semicolon. rewrite andb_true_iff, !N.leb_le.
  intros [Hlo Hhi]. apply N.eqb_neq. lia.
Qed.

Lemma startswith_app p s : startswith p (p ++ s) = true.
Proof.
  induction p as [|a p IH]; simpl; [done|].
  by rewrite N.eqb_refl, IH.
Qed.

Lemma str_in_prefix p s : str_in p (p ++ s) = true.
Proof.
  destruct p as [|a p]; [by destruct s|].
  change (str_in (a :: p) ((a :: p) ++ s))
    with (startswith (a :: p) ((a :: p) ++ s) || str_in (a :: p) (p ++ s)).
  by rewrite startswith_app.
Qed.

Lemma str_in_nil_r p : str_in p [] = true → p = [].
Proof. by destruct p. Qed.

(** Removing the marker in front of a string. *)
Lemma str_remove_marker_app r :
  str_remove marker (marker ++ r) = str_remove marker r.
Proof. reflexivity. Qed.

(** Plain characters are copied. *)
Lemma str_remove_plain_app t r :
  Forall (λ c, plain c = true) t →
  str_remove marker (t ++ r) = t ++ str_remove marker r.
Proof.
  unfold str_remove, marker.
  induction 1 as [|c t Hc _ IH]; [done|].
  cbn [app str_remove_go startswith].
  unfold plain in Hc. apply negb_true_iff in Hc.
  rewrite N.eqb_sym, Hc. cbn [andb]. by rewrite IH.
Qed.

Lemma str_remove_plain t :
  Forall (λ c, plain c = true) t → str_remove marker t = t.
Proof.
  intros H. rewrite <- (app_nil_r t) at 1.
  rewrite str_remove_plain_app by done. by rewrite app_nil_r.
Qed.

Lemma lstrip_id s : Forall (λ c, isspace c = false) s → lstrip s = s.
Proof. destruct 1 as [|c s Hc _]; simpl; [done|]. by rewrite Hc. Qed.

Lemma strip_id s : Forall (λ c, isspace c = false) s → strip s = s.
Proof.
  intros H. unfold strip, rstrip. rewrite (lstrip_id s H).
  rewrite lstrip_id; [apply rev_involutive|].
  by apply List.Forall_rev.
Qed.

Lemma split_first_app t r :
  Forall (λ c, (c =? semicolon)%N = false) t →
  split_first semicolon (t ++ semicolon :: r) = t.
Proof.
  induction 1 as [|c t Hc _ IH]; [reflexivity|].
  cbn [app split_first]. by rewrite Hc, IH.
Qed.

Lemma split_first_id t :
  Forall (λ c, (c =? semicolon)%N = false) t →
  split_first semicolon t = t.
Proof.
  induction 1 as [|c t Hc _ IH]; [reflexivity|].
  cbn [split_first]. by rewrite Hc, IH.
Qed.

Lemma digits_token t : digits t → Forall (λ c, token_char c = true) t.
Proof. intros H. eapply Forall_impl; [exact H | apply isdigit_token_char]. Qed.

Lemma digits_no_semicolon t :
  digits t → Forall (λ c, (c =? semicolon)%N = false) t.
Proof. intros H. eapply Forall_impl; [exact H | apply isdigit_not_semicolon]. Qed.

Lemma token_plain t :
  Forall (λ c, token_char c = true) t → Forall (λ c, plain c = true) t.
Proof. intros H. eapply Forall_impl; [exact H | apply token_char_plain]. Qed.

Lemma token_not_space t :
  Forall (λ c, token_char c = true) t → Forall (λ c, isspace c = false) t.
Proof. intros H. eapply Forall_impl; [exact H | apply token_char_not_space]. Qed.

End Strings.

(** ** Sub-records joined by semicolons *)

Section SubRecords.

Lemma join_tokens_chars toks :
  Forall digits toks → Forall (λ c, token_char c = true) (join_tokens toks).
Proof.
  induction 1 as [|t rest Ht Hrest IH]; [constructor|].
  destruct rest as [|t' rest]; [by apply digits_token|].
  change (join_tokens (t :: t' :: rest))
    with (t ++ semicolon :: join_tokens (t' :: rest)).
  apply Forall_app. split; [by apply digits_token|].
  constructor; [reflexivity | exact IH].
Qed.

Lemma str_remove_sub_records toks :
  Forall digits toks →
  str_remove marker (sub_records toks) = join_tokens toks.
Proof.
  induction 1 as [|t rest Ht Hrest IH]; [reflexivity|].
  destruct rest as [|t' rest].
  - cbn [sub_records join_tokens]. rewrite str_remove_marker_app.
    by apply str_remove_plain, token_plain, digits_token.
  - change (sub_records (t :: t' :: rest))
      with (marker ++ t ++ semicolon :: sub_records (t' :: rest)).
    change (join_tokens (t :: t' :: rest))
      with (t ++ semicolon :: join_tokens (t' :: rest)).
    rewrite str_remove_marker_app.
    rewrite str_remove_plain_app by by apply token_plain, digits_token.
    change (semicolon :: sub_records (t' :: rest))
      with ([semicolon] ++ sub_records (t' :: rest)).
    rewrite str_remove_plain_app by (by repeat constructor).
    by rewrite IH.
Qed.

Lemma split_first_join t rest :
  digits t → split_first semicolon (join_tokens (t :: rest)) = t.
Proof.
  intros Ht. destruct rest as [|t' rest].
  - by apply split_first_id, digits_no_semicolon.
  - change (join_tokens (t :: t' :: rest))
      with (t ++ semicolon :: join_tokens (t' :: rest)).
    by apply split_first_app, digits_no_semicolon.
Qed.

Lemma str_in_sub_records t rest :
  str_in marker (sub_records (t :: rest)) = true.
Proof. destruct rest; apply str_in_prefix. Qed.

Lemma join_tokens_cons t rest :
  t ≠ [] → ∃ c r, join_tokens (t :: rest) = c :: r.
Proof.
  destruct t as [|c t]; [done|]. intros _.
  destruct rest; cbn [join_tokens app]; eauto.
Qed.

Lemma date_pattern_sub_records t rest :
  t ≠ [] → Forall digits (t :: rest) →
  date_pattern (sub_records (t :: rest)) = Some (pattern_label (length t)).
Proof.
  intros Hne Hall. unfold date_pattern.
  rewrite str_in_sub_records, str_remove_sub_records by done.
  rewrite strip_id by by apply token_not_space, join_tokens_chars.
  destruct (join_tokens_cons t rest Hne) as (c & r & Heq).
  rewrite split_first_join by by inversion Hall.
  by rewrite Heq.
Qed.

End SubRecords.

(** ** The loop over the cancellation strings *)

Section Patterns.

Implicit Types (patterns : gmap pystr nat) (s k : pystr).

(** The loop body increments the label [date_pattern] chooses, and that
    choice does not look at [patterns]. *)
Lemma pattern_step_date_pattern patterns s :
  pattern_step patterns s =
  match date_pattern s with
  | Some pattern => <[pattern := patterns_get patterns pattern + 1]> patterns
  | None => patterns
  end.
Proof.
  unfold pattern_step, date_pattern.
  destruct (str_in marker s); [|done].
  by destruct (strip (str_remove marker s)).
Qed.

Lemma patterns_get_step patterns s k :
  patterns_get (pattern_step patterns s) k =
  patterns_get patterns k + (if decide (date_pattern s = Some k) then 1 else 0).
Proof.
  rewrite pattern_step_date_pattern. unfold patterns_get.
  destruct (date_pattern s) as [k'|]; [|case_decide; [done | lia]].
  destruct (decide (k' = k)) as [->|Hne].
  - rewrite lookup_insert_eq. case_decide; [done | congruence].
  - rewrite lookup_insert_ne by done. case_decide; [congruence | lia].
Qed.

(** After the loop, a counter holds the number of visited strings whose
    label it is. *)
Lemma patterns_get_foldl patterns (l : list pystr) k :
  patterns_get (foldl pattern_step patterns l) k =
  patterns_get patterns k + length (filter (λ s, date_pattern s = Some k) l).
Proof.
  revert patterns. induction l as [|s l IH]; intros patterns; simpl; [lia|].
  rewrite IH, patterns_get_step, filter_cons.
  case_decide; simpl; lia.
Qed.

Lemma pattern_step_no_label patterns s :
  date_pattern s = None → pattern_step patterns s = patterns.
Proof. intros H. by rewrite pattern_step_date_pattern, H. Qed.

End Patterns.

(** ** Counting over the column *)

Section Counting.

Implicit Types (df : column) (x : cell).

Lemma bool_sum_app l1 l2 : bool_sum (l1 ++ l2) = bool_sum l1 + bool_sum l2.
Proof. apply sum_list_with_app. Qed.

Lemma cancelled_transactions_app df1 df2 :
  cancelled_transactions (df1 ++ df2)
  = cancelled_transactions df1 + cancelled_transactions df2.
Proof. unfold cancelled_transactions. by rewrite fmap_app, bool_sum_app. Qed.

Lemma normal_transactions_app df1 df2 :
  normal_transactions (df1 ++ df2)
  = normal_transactions df1 + normal_transactions df2.
Proof. unfold normal_transactions. by rewrite fmap_app, bool_sum_app. Qed.

Lemma total_transactions_app df1 df2 :
  total_transactions (df1 ++ df2)
  = total_transactions df1 + total_transactions df2.
Proof. apply length_app. Qed.

Lemma cancelled_transactions_cons x df :
  cancelled_transactions (x :: df)
  = Nat.b2n (notna x) + cancelled_transactions df.
Proof. reflexivity. Qed.

Lemma normal_transactions_cons x df :
  normal_transactions (x :: df) = Nat.b2n (isnull x) + normal_transactions df.
Proof. reflexivity. Qed.

(** Every record is either normal or cancelled. *)
Lemma normal_plus_cancelled df :
  normal_transactions df + cancelled_transactions df = total_transactions df.
Proof.
  induction df as [|x df IH]; [done|].
  rewrite normal_transactions_cons, cancelled_transactions_cons.
  unfold total_transactions in *. cbn [length].
  destruct x; simpl; lia.
Qed.

(** The cancelled count is the number of rows kept by the filter. *)
Lemma cancelled_transactions_data df :
  cancelled_transactions df = length (cancelled_data df).
Proof.
  induction df as [|x df IH]; [done|].
  rewrite cancelled_transactions_cons, IH.
  by destruct x.
Qed.

Lemma cancelled_data_app df1 df2 :
  cancelled_data (df1 ++ df2) = cancelled_data df1 ++ cancelled_data df2.
Proof. apply omap_app. Qed.

Lemma cancelled_data_present (l : list pystr) :
  cancelled_data (Some <$> l) = l.
Proof. induction l as [|s l IH]; [done|]. cbn. by f_equal. Qed.

Lemma cancelled_transactions_perm df1 df2 :
  df1 ≡ₚ df2 → cancelled_transactions df1 = cancelled_transactions df2.
Proof. unfold cancelled_transactions, bool_sum. by intros ->. Qed.

Lemma normal_transactions_perm df1 df2 :
  df1 ≡ₚ df2 → normal_transactions df1 = normal_transactions df2.
Proof. unfold normal_transactions, bool_sum. by intros ->. Qed.

Lemma total_transactions_perm df1 df2 :
  df1 ≡ₚ df2 → total_transactions df1 = total_transactions df2.
Proof. unfold total_transactions. by intros ->. Qed.

Lemma statistics_perm df1 df2 :
  df1 ≡ₚ df2 → statistics df1 = statistics df2.
Proof.
  intros H. unfold statistics, cancellation_rate, cancelled_ratio, normal_ratio.
  by rewrite (cancelled_transactions_perm _ _ H),
    (normal_transactions_perm _ _ H), (total_transactions_perm _ _ H).
Qed.

(** The counters of two parts of a column add up. *)
Lemma statistics_merge df1 df2 :
  s_total (statistics (df1 ++ df2))
    = s_total (statistics df1) + s_total (statistics df2)
  ∧ s_normal (statistics (df1 ++ df2))
    = s_normal (statistics df1) + s_normal (statistics df2)
  ∧ s_cancelled (statistics (df1 ++ df2))
    = s_cancelled (statistics df1) + s_cancelled (statistics df2).
Proof.
  cbn [statistics s_total s_normal s_cancelled].
  by rewrite total_transactions_app, normal_transactions_app,
    cancelled_transactions_app.
Qed.

Lemma true_divide_pos a b :
  0 < b → true_divide a b = Finite (Z.of_nat a # Pos.of_nat b).
Proof. destruct b; [lia | done]. Qed.

End Counting.

(** ** One record and the column *)

Section Events.

Implicit Types (df : column) (x : cell) (s : pystr).

Lemma cancellation_count_notna x :
  cancellation_count (cancellation_event x) = Nat.b2n (notna x).
Proof. by destruct x. Qed.


Lemma cancelled_transactions_sum df :
  cancelled_transactions df
  = sum_list_with (λ x, cancellation_count (cancellation_event x)) df.
Proof.
  induction df as [|x df IH]; [done|].
  rewrite cancelled_transactions_cons, IH. cbn [sum_list_with].
  by rewrite cancellation_count_notna.
Qed.

Lemma pattern_analysis_head df :
  pattern_analysis df
  = pattern_analysis (Some <$> take 20 (cancelled_data df)).
Proof.
  unfold pattern_analysis.
  rewrite !cancelled_transactions_data, cancelled_data_present.
  unfold patterns_of. rewrite take_take, Nat.min_id, length_take.
  destruct (cancelled_data df) as [|s l]; [done|]. reflexivity.
Qed.

Lemma pattern_analysis_beyond df extra :
  20 ≤ cancelled_transactions df →
  pattern_analysis (df ++ extra) = pattern_analysis df.
Proof.
  intros H. unfold pattern_analysis.
  rewrite cancelled_transactions_app, cancelled_data_app.
  rewrite cancelled_transactions_data in H.
  unfold patterns_of. rewrite take_app_le by done.
  rewrite <- cancelled_transactions_data in H.
  destruct (Nat.ltb_spec 0 (cancelled_transactions df)); [|lia].
  destruct (Nat.ltb_spec 0 (cancelled_transactions df + cancelled_transactions extra));
    [done | lia].
Qed.

End Events.

(** ** The claims of the specification *)

(** An increment of one counter of [patterns]. *)
Lemma pattern_step_label (patterns : gmap pystr nat) (s pattern : pystr) :
  date_pattern s = Some pattern →
  pattern_step patterns s
  = <[pattern := patterns_get patterns pattern + 1]> patterns.
Proof. intros H. by rewrite pattern_step_date_pattern, H. Qed.

(** C1, counterexample. For the text 全部解約1120315 the record is counted
    as cancelled, but no date 2023-03-15 is produced: the notebook has no
    conversion from the date token to a calendar date. *)
Lemma C1_counterexample :
  ¬ (is_cancelled (cancellation_event (Some sample1)) = true
     ∧ cancelled_date (cancellation_event (Some sample1))
       = Some (mkdate (112 + 1911) 3 15)).
Proof. intros [_ H]. discriminate H. Qed.

(** C1, as amended. For every text made of the marker followed by a token
    of seven digits, the record is counted as cancelled, it counts once,
    no date is derived from the token, and the loop increments the counter
    of the label for length 7. *)
Theorem C1_marker_seven_digits (tok : pystr) :
  length tok = 7 → digits tok →
  is_cancelled (cancellation_event (Some (marker ++ tok))) = true
  ∧ cancellation_count (cancellation_event (Some (marker ++ tok))) = 1
  ∧ cancelled_date (cancellation_event (Some (marker ++ tok))) = None
  ∧ token_pattern (cancellation_event (Some (marker ++ tok)))
    = Some (pattern_label 7)
  ∧ ∀ patterns : gmap pystr nat,
      pattern_step patterns (marker ++ tok)
      = <[pattern_label 7 := patterns_get patterns (pattern_label 7) + 1]>
          patterns.
Proof.
  intros Hlen Hdig.
  assert (Hp : date_pattern (marker ++ tok) = Some (pattern_label 7)).
  { rewrite <- Hlen.
    apply (date_pattern_sub_records tok []); [by destruct tok | by constructor]. }
  repeat split; [exact Hp|].
  intros patterns. by apply pattern_step_label.
Qed.

Lemma C1_marker_seven_digits_witness :
  is_cancelled (cancellation_event (Some sample1)) = true
  ∧ cancellation_count (cancellation_event (Some sample1)) = 1
  ∧ cancelled_date (cancellation_event (Some sample1)) = None
  ∧ token_pattern (cancellation_event (Some sample1)) = Some (pattern_label 7)
  ∧ ∀ patterns : gmap pystr nat,
      pattern_step patterns sample1
      = <[pattern_label 7 := patterns_get patterns (pattern_label 7) + 1]>
          patterns.
Proof.
  apply (C1_marker_seven_digits (str_of_ascii "1120315")).
  - reflexivity.
  - repeat constructor.
Defined.

(** C2, counterexample. On the empty column the rate is not zero: the
    quotient 0/0 is not a number. *)
Lemma C2_counterexample :
  ¬ (∃ q : Q, cancelled_ratio [] = Finite q ∧ (q == 0)%Q)
  ∧ ¬ (∃ q : Q, cancellation_rate [] = Finite q ∧ (q == 0)%Q).
Proof. split; intros (q & H & _); discriminate H. Qed.

(** C2, as amended. On the empty column the total and both counts are 0
    and nothing raises; the rate is the unguarded quotient 0/0, which is
    nan, and the pattern cell is skipped. *)
Theorem C2_empty_column :
  total_transactions [] = 0
  ∧ cancelled_transactions [] = 0
  ∧ normal_transactions [] = 0
  ∧ cancelled_ratio [] = NaN
  ∧ cancellation_rate [] = NaN
  ∧ statistics [] = mkSummary 0 0 0 NaN NaN
  ∧ pattern_analysis [] = None.
Proof. repeat split. Qed.

(** C3, counterexample. A present text without the marker is counted as
    cancelled. *)
Lemma C3_counterexample :
  ¬ (is_cancelled (cancellation_event (Some unmarked_sample)) = true
     ↔ ∃ s : pystr, Some unmarked_sample = Some s ∧ s ≠ []
                    ∧ str_in marker s = true).
Proof.
  intros [H _]. destruct (H eq_refl) as (s & [= <-] & _ & Hin).
  discriminate Hin.
Qed.

(** C3, as amended. A record is counted as cancelled if and only if its
    text is present (not null), with or without the marker; the marker
    test only gates the length histogram: a text without the marker
    increments no counter. *)
Theorem C3_cancelled_iff_present (x : cell) :
  (is_cancelled (cancellation_event x) = true ↔ is_Some x)
  ∧ (cancelled_transactions [x] = 1 ↔ is_Some x)
  ∧ ∀ s : pystr, x = Some s → str_in marker s = false →
      token_pattern (cancellation_event x) = None
      ∧ ∀ patterns : gmap pystr nat, pattern_step patterns s = patterns.
Proof.
  split; [|split].
  - destruct x; cbn; split; intros H; try done; by destruct H.
  - destruct x; cbn; split; intros H; try done; by destruct H.
  - intros s -> Hin.
    assert (Hp : date_pattern s = None) by (unfold date_pattern; by rewrite Hin).
    split; [exact Hp|]. intros patterns. by apply pattern_step_no_label.
Qed.

Lemma C3_cancelled_iff_present_witness :
  is_cancelled (cancellation_event (Some unmarked_sample)) = true
  ∧ token_pattern (cancellation_event (Some unmarked_sample)) = None
  ∧ pattern_step ∅ unmarked_sample = ∅.
Proof.
  destruct (C3_cancelled_iff_present (Some unmarked_sample)) as (H1 & _ & H3).
  split; [apply H1; by eexists|].
  destruct (H3 unmarked_sample eq_refl eq_refl) as [H4 H5].
  split; [exact H4 | exact (H5 ∅)].
Defined.

(** C4, counterexample. The text 全部解約1120315;全部解約1130101 has two
    sub-records with the marker, yet the record counts once, and the loop
    makes a single increment (of the label for length 7). *)
Lemma C4_counterexample :
  cancellation_count (cancellation_event (Some sample2)) ≠ 2
  ∧ cancelled_transactions [Some sample2] ≠ 2
  ∧ pattern_analysis [Some sample2] = Some {[ pattern_label 7 := 1 ]}.
Proof.
  split; [|split].
  - vm_compute. lia.
  - vm_compute. lia.
  - vm_compute. reflexivity.
Qed.

(** C4, as amended. Every present record counts once, whatever the number
    of its sub-records; for sub-records that carry the marker and digit
    tokens (the first one not empty) the loop makes one increment, of the
    label for the length of the first token. *)
Theorem C4_one_per_record (t : pystr) (rest : list pystr) :
  t ≠ [] → Forall digits (t :: rest) →
  cancellation_count (cancellation_event (Some (sub_records (t :: rest)))) = 1
  ∧ cancelled_transactions [Some (sub_records (t :: rest))] = 1
  ∧ token_pattern (cancellation_event (Some (sub_records (t :: rest))))
    = Some (pattern_label (length t))
  ∧ ∀ patterns : gmap pystr nat,
      pattern_step patterns (sub_records (t :: rest))
      = <[pattern_label (length t)
          := patterns_get patterns (pattern_label (length t)) + 1]> patterns.
Proof.
  intros Hne Hdig.
  pose proof (date_pattern_sub_records t rest Hne Hdig) as Hp.
  repeat split; [exact Hp|].
  intros patterns. by apply pattern_step_label.
Qed.

Lemma C4_one_per_record_witness :
  cancellation_count (cancellation_event (Some sample2)) = 1
  ∧ cancelled_transactions [Some sample2] = 1
  ∧ token_pattern (cancellation_event (Some sample2)) = Some (pattern_label 7)
  ∧ ∀ patterns : gmap pystr nat,
      pattern_step patterns sample2
      = <[pattern_label 7 := patterns_get patterns (pattern_label 7) + 1]>
          patterns.
Proof.
  apply (C4_one_per_record (str_of_ascii "1120315") [str_of_ascii "1130101"]).
  - discriminate.
  - repeat constructor.
Defined.

Example sampleABC_bucket :
  pattern_analysis [Some sampleABC] = Some {[ pattern_label 3 := 1 ]}.
Proof. vm_compute. reflexivity. Qed.

(** C6. For every absent input, and for the empty field, which the loader
    turns into a null cell, the record is not cancelled: it is not counted
    among the cancelled records, it has no date, its count is zero, it is
    dropped by the non-null filter and the pattern loop never sees it. *)
Theorem C6_absent_or_empty (x : cell) :
  x = None ∨ x = read_csv_cell [] →
  is_cancelled (cancellation_event x) = false
  ∧ cancelled_date (cancellation_event x) = None
  ∧ cancellation_count (cancellation_event x) = 0
  ∧ token_pattern (cancellation_event x) = None
  ∧ cancelled_transactions [x] = 0
  ∧ normal_transactions [x] = 1
  ∧ cancelled_data [x] = []
  ∧ pattern_analysis [x] = None.
Proof.
  assert (He : read_csv_cell [] = None) by reflexivity.
  intros [->| ->]; [|rewrite He]; repeat split.
Qed.

Lemma C6_absent_or_empty_witness :
  read_csv_cell [] = None
  ∧ is_cancelled (cancellation_event (read_csv_cell [])) = false
  ∧ cancelled_date (cancellation_event (read_csv_cell [])) = None
  ∧ cancellation_count (cancellation_event (read_csv_cell [])) = 0.
Proof.
  split; [reflexivity|].
  destruct (C6_absent_or_empty (read_csv_cell [])) as (H1 & H2 & H3 & _).
  - right. reflexivity.
  - split; [exact H1 | split; [exact H2 | exact H3]].
Defined.





(** C9. The analysis of a record is a function of its text alone: the
    label the loop increments for a string does not depend on the state of
    [patterns], so the same string gets the same label at every visit; what
    a record adds to the counts does not depend on the records around it;
    and the increments a string causes are the same after any two
    histories of earlier strings. *)
Theorem C9_deterministic (s : pystr) :
  (∀ patterns : gmap pystr nat,
     pattern_step patterns s
     = bump (token_pattern (cancellation_event (Some s))) patterns)
  ∧ (∀ patterns : gmap pystr nat,
       pattern_step (pattern_step patterns s) s
       = bump (token_pattern (cancellation_event (Some s)))
           (bump (token_pattern (cancellation_event (Some s))) patterns))
  ∧ (∀ (pre1 pre2 : list pystr) (k : pystr),
       patterns_get (foldl pattern_step ∅ (pre1 ++ [s])) k
         - patterns_get (foldl pattern_step ∅ pre1) k
       = patterns_get (foldl pattern_step ∅ (pre2 ++ [s])) k
         - patterns_get (foldl pattern_step ∅ pre2) k)
  ∧ (∀ df1 df2 : column,
       cancelled_transactions (df1 ++ Some s :: df2)
       = cancelled_transactions df1
         + cancellation_count (cancellation_event (Some s))
         + cancelled_transactions df2).
Proof.
  assert (Hstep : ∀ patterns : gmap pystr nat,
            pattern_step patterns s
            = bump (token_pattern (cancellation_event (Some s))) patterns).
  { intros patterns. apply pattern_step_date_pattern. }
  split; [exact Hstep|]. split; [|split].
  - intros patterns. by rewrite !Hstep.
  - intros pre1 pre2 k. rewrite !foldl_app. cbn [foldl].
    rewrite !patterns_get_step. lia.
  - intros df1 df2.
    rewrite cancelled_transactions_app, cancelled_transactions_cons.
    cbn. lia.
Qed.

(** C10. The histogram is computed from the first twenty non-null texts
    at most: it is the histogram of those texts alone, records after the
    twentieth non-null one never change it, and a text that contains the
    marker and has an empty remainder after stripping increments no
    counter. *)
Theorem C10_first_twenty (df extra : column) (s : pystr) :
  20 ≤ cancelled_transactions df →
  str_in marker s = true →
  strip (str_remove marker s) = [] →
  pattern_analysis df
    = pattern_analysis (Some <$> take 20 (cancelled_data df))
  ∧ pattern_analysis (df ++ extra) = pattern_analysis df
  ∧ token_pattern (cancellation_event (Some s)) = None
  ∧ ∀ patterns : gmap pystr nat, pattern_step patterns s = patterns.
Proof.
  intros Hlen Hin Hempty.
  split; [apply pattern_analysis_head|].
  split; [by apply pattern_analysis_beyond|].
  assert (Hp : date_pattern s = None).
  { unfold date_pattern. by rewrite Hin, Hempty. }
  split; [exact Hp|].
  intros patterns. by apply pattern_step_no_label.
Qed.

Lemma C10_first_twenty_witness :
  pattern_analysis (twenty_records ++ [Some sampleABC])
    = pattern_analysis twenty_records
  ∧ pattern_analysis twenty_records = Some {[ pattern_label 7 := 20 ]}
  ∧ pattern_step ∅ blank_sample = ∅.
Proof.
  destruct (C10_first_twenty twenty_records [Some sampleABC] blank_sample)
    as (_ & H2 & _ & H4).
  - vm_compute. lia.
  - reflexivity.
  - reflexivity.
  - split; [exact H2|]. split; [vm_compute; reflexivity | exact (H4 ∅)].
Defined.

(** The histogram, unlike the counts, depends on the order of the records
    once more than twenty texts are present: moving a record from the
    twenty-first place to the first changes it. *)
Lemma pattern_analysis_order_sensitive :
  twenty_records ++ [Some sampleABC] ≡ₚ Some sampleABC :: twenty_records
  ∧ pattern_analysis (twenty_records ++ [Some sampleABC])
    ≠ pattern_analysis (Some sampleABC :: twenty_records).
Proof.
  split.
  - by rewrite Permutation_app_comm.
  - intros H.
    assert (H3 : (pattern_analysis (twenty_records ++ [Some sampleABC])
                    ≫= λ m, m !! pattern_label 3)
                 = (pattern_analysis (Some sampleABC :: twenty_records)
                    ≫= λ m, m !! pattern_label 3)) by (by rewrite H).
    vm_compute in H3. discriminate H3.
Qed.

(** ** Further properties of the statistics cell *)

Section StatisticsFacts.

Implicit Types (df : column) (x : cell).

Lemma Zpos_of_nat (k : nat) : 0 < k → Z.pos (Pos.of_nat k) = Z.of_nat k.
Proof. intros H. rewrite <- positive_nat_Z, Nat2Pos.id by lia. done. Qed.

Lemma cancelled_le_total df : cancelled_transactions df ≤ total_transactions df.
Proof. pose proof (normal_plus_cancelled df). lia. Qed.

Lemma cancelled_zero_iff df :
  cancelled_transactions df = 0 ↔ Forall (λ x, x = None) df.
Proof.
  induction df as [|x df IH]; [by split|].
  rewrite cancelled_transactions_cons, Forall_cons, <- IH.
  destruct x; cbn.
  - split; [lia | intros [? ?]; done].
  - split; [done | intros [? ?]; done].
Qed.

Lemma normal_zero_iff df :
  normal_transactions df = 0 ↔ Forall (λ x, is_Some x) df.
Proof.
  induction df as [|x df IH]; [by split|].
  rewrite normal_transactions_cons, Forall_cons, <- IH.
  destruct x; cbn.
  - split; [intros H; split; [by eexists | done] | intros [? ?]; done].
  - split; [lia | intros [[? ?] ?]; done].
Qed.

Lemma true_divide_nan a b : true_divide a b = NaN ↔ a = 0 ∧ b = 0.
Proof. destruct a, b; cbn; split; try done; intros [? ?]; done. Qed.

Lemma true_divide_inf a b : true_divide a b = Inf ↔ 0 < a ∧ b = 0.
Proof. destruct a, b; cbn; split; try done; try lia; intros [? ?]; lia. Qed.

Lemma times100_nan r : times100 r = NaN ↔ r = NaN.
Proof. by destruct r. Qed.

Lemma times100_inf r : times100 r = Inf ↔ r = Inf.
Proof. by destruct r. Qed.

End StatisticsFacts.

(** X1. For every column the normal and the cancelled counts partition the
    records: they add up to the total, neither exceeds it, and the
    cancelled count is the number of rows the non-null filter keeps. *)
Theorem counts_partition (df : column) :
  normal_transactions df + cancelled_transactions df = total_transactions df
  ∧ normal_transactions df ≤ total_transactions df
  ∧ cancelled_transactions df ≤ total_transactions df
  ∧ length (cancelled_data df) = cancelled_transactions df
  ∧ length (cancelled_data df) + normal_transactions df = length df.
Proof.
  pose proof (normal_plus_cancelled df) as H.
  pose proof (cancelled_transactions_data df) as Hd.
  unfold total_transactions in *. repeat split; lia.
Qed.

(** X2. The quotients of the statistics cell are undefined exactly on the
    empty table: each is nan if and only if the column has no record, and
    none is ever infinite. *)
Theorem ratio_nan_iff_empty (df : column) :
  (cancelled_ratio df = NaN ↔ df = [])
  ∧ (normal_ratio df = NaN ↔ df = [])
  ∧ (cancellation_rate df = NaN ↔ df = [])
  ∧ cancelled_ratio df ≠ Inf
  ∧ normal_ratio df ≠ Inf
  ∧ cancellation_rate df ≠ Inf.
Proof.
  pose proof (normal_plus_cancelled df) as Hsum.
  assert (Hlen : total_transactions df = 0 ↔ df = []).
  { unfold total_transactions. by rewrite length_zero_iff_nil. }
  unfold cancellation_rate, cancelled_ratio, normal_ratio.
  rewrite times100_nan, times100_inf, !true_divide_nan, !true_divide_inf.
  repeat split;
    try (intros [? ?]; by apply Hlen);
    try (intros ->; done);
    try (subst df; done);
    intros [? ?]; lia.
Qed.

(** X3. On a table with at least one record both printed percentages are
    finite and lie between 0 and 100. *)
Theorem percentages_bounded (df : column) :
  df ≠ [] →
  ∃ p q : Q,
    s_normal_pct (statistics df) = Finite p
    ∧ s_cancelled_pct (statistics df) = Finite q
    ∧ (0 <= p)%Q ∧ (p <= 100)%Q ∧ (0 <= q)%Q ∧ (q <= 100)%Q.
Proof.
  intros Hne.
  assert (Hk : 0 < total_transactions df).
  { unfold total_transactions. destruct df; [done | cbn; lia]. }
  pose proof (normal_plus_cancelled df) as Hsum.
  cbn [statistics s_normal_pct s_cancelled_pct].
  unfold cancellation_rate, cancelled_ratio, normal_ratio.
  rewrite !true_divide_pos by done. cbn [times100].
  eexists _, _. split; [reflexivity|]. split; [reflexivity|].
  unfold Qle, Qmult. cbn [Qnum Qden].
  rewrite !Pos2Z.inj_mul, !Zpos_of_nat by done.
  repeat split; nia.
Qed.

Lemma percentages_bounded_witness :
  ∃ p q : Q,
    s_normal_pct (statistics sample_column) = Finite p
    ∧ s_cancelled_pct (statistics sample_column) = Finite q
    ∧ (0 <= p)%Q ∧ (p <= 100)%Q ∧ (0 <= q)%Q ∧ (q <= 100)%Q.
Proof. apply (percentages_bounded sample_column). discriminate. Defined.

(** X4. On a table with at least one record the cancellation rate is 0
    exactly when every record is null, and 100 exactly when no record is
    null. *)
Theorem rate_extremes (df : column) :
  df ≠ [] →
  ∃ q : Q,
    cancellation_rate df = Finite q
    ∧ ((q == 0)%Q ↔ Forall (λ x, x = None) df)
    ∧ ((q == 100)%Q ↔ Forall (λ x, is_Some x) df).
Proof.
  intros Hne.
  assert (Hk : 0 < total_transactions df).
  { unfold total_transactions. destruct df; [done | cbn; lia]. }
  pose proof (normal_plus_cancelled df) as Hsum.
  unfold cancellation_rate, cancelled_ratio.
  rewrite true_divide_pos by done. cbn [times100].
  eexists. split; [reflexivity|].
  rewrite <- cancelled_zero_iff, <- normal_zero_iff.
  unfold Qeq, Qmult. cbn [Qnum Qden].
  rewrite !Pos2Z.inj_mul, !Zpos_of_nat by done.
  split; split; intros H; nia.
Qed.

Lemma rate_extremes_witness :
  ∃ q : Q,
    cancellation_rate sample_column = Finite q
    ∧ ((q == 0)%Q ↔ Forall (λ x, x = None) sample_column)
    ∧ ((q == 100)%Q ↔ Forall (λ x, is_Some x) sample_column).
Proof. apply (rate_extremes sample_column). discriminate. Defined.

(** X5. The counts of two parts of a table add up: the statistics of a
    concatenation are the sums of the statistics of the parts, so partial
    counts can be merged in any grouping. *)
Theorem counts_merge (df1 df2 df3 : column) :
  total_transactions (df1 ++ df2)
    = total_transactions df1 + total_transactions df2
  ∧ normal_transactions (df1 ++ df2)
    = normal_transactions df1 + normal_transactions df2
  ∧ cancelled_transactions (df1 ++ df2)
    = cancelled_transactions df1 + cancelled_transactions df2
  ∧ statistics (df1 ++ df2) = statistics (df2 ++ df1)
  ∧ statistics ((df1 ++ df2) ++ df3) = statistics (df1 ++ (df2 ++ df3)).
Proof.
  split; [apply total_transactions_app|].
  split; [apply normal_transactions_app|].
  split; [apply cancelled_transactions_app|].
  split; [apply statistics_perm, Permutation_app_comm|].
  by rewrite <- app_assoc.
Qed.

(** ** Further properties of the pattern-analysis cell *)

Section PatternFacts.

Implicit Types (m : gmap pystr nat) (s k : pystr) (l : list pystr).

Lemma counter_total_insert_fresh m k v :
  m !! k = None → counter_total (<[k := v]> m) = v + counter_total m.
Proof.
  intros H. unfold counter_total.
  rewrite map_fold_insert_L; [done | intros; lia | done].
Qed.

Lemma counter_total_bump m k :
  counter_total (<[k := patterns_get m k + 1]> m) = counter_total m + 1.
Proof.
  unfold patterns_get. destruct (m !! k) as [v|] eqn:Hk; cbn [default].
  - rewrite <- insert_delete_eq.
    rewrite counter_total_insert_fresh by apply lookup_delete_eq.
    unfold counter_total.
    rewrite (map_fold_delete_L _ _ k v m); [unfold id; lia | intros; lia | done].
  - rewrite counter_total_insert_fresh by done. lia.
Qed.

Lemma counter_total_foldl m l :
  counter_total (foldl pattern_step m l) = counter_total m + labelled_count l.
Proof.
  unfold labelled_count.
  revert m. induction l as [|s l IH]; intros m; cbn [foldl]; [cbn; lia|].
  rewrite IH, filter_cons, pattern_step_date_pattern.
  destruct (date_pattern s) as [k|] eqn:Hs.
  - rewrite counter_total_bump.
    destruct (decide (is_Some (Some k))) as [_|Hn]; [cbn; lia|].
    destruct Hn. by eexists.
  - destruct (decide (is_Some (@None pystr))) as [[? ?]|_]; [done | lia].
Qed.

Lemma patterns_positive l m :
  (∀ k v, m !! k = Some v → 1 ≤ v) →
  ∀ k v, foldl pattern_step m l !! k = Some v → 1 ≤ v.
Proof.
  revert m. induction l as [|s l IH]; intros m Hm; [exact Hm|].
  cbn [foldl]. apply IH. intros k v.
  rewrite pattern_step_date_pattern.
  destruct (date_pattern s) as [k'|]; [|apply Hm].
  destruct (decide (k' = k)) as [->|Hne].
  - rewrite lookup_insert_eq. intros [= <-]. lia.
  - rewrite lookup_insert_ne by done. apply Hm.
Qed.

(** A counter of the finished dictionary is the number of visited strings
    with its label, and labels that were never met are absent. *)
Lemma patterns_lookup l k :
  foldl pattern_step ∅ l !! k
  = match label_count k l with
    | 0 => None
    | S n => Some (S n)
    end.
Proof.
  pose proof (patterns_get_foldl ∅ l k) as Hget.
  pose proof (patterns_positive l ∅) as Hpos.
  unfold patterns_get in Hget. rewrite lookup_empty in Hget.
  fold (label_count k l) in Hget.
  destruct (foldl pattern_step ∅ l !! k) as [v|] eqn:Hk;
    unfold default, from_option, id in Hget; rewrite Nat.add_0_l in Hget.
  - assert (1 ≤ v) by (eapply Hpos; [intros ? ?; by rewrite lookup_empty | done]).
    destruct (label_count k l); [lia | by f_equal].
  - by rewrite <- Hget.
Qed.

Lemma date_pattern_is_label s k :
  date_pattern s = Some k →
  k = pattern_label
        (length (split_first semicolon (strip (str_remove marker s)))).
Proof.
  unfold date_pattern. destruct (str_in marker s); [|done].
  destruct (strip (str_remove marker s)); [done|]. by intros [= <-].
Qed.

Lemma label_count_le k l : label_count k l ≤ length l.
Proof. apply length_filter. Qed.

Lemma label_count_pos k l :
  0 < label_count k l → ∃ s, s ∈ l ∧ date_pattern s = Some k.
Proof.
  unfold label_count. intros H.
  destruct (filter (λ s, date_pattern s = Some k) l) as [|s r] eqn:Hf;
    [cbn in H; lia|].
  assert (Hin : s ∈ filter (λ s, date_pattern s = Some k) l)
    by (rewrite Hf; left).
  apply list_elem_of_filter in Hin as [? ?]. eauto.
Qed.

Lemma label_count_elem k l s :
  s ∈ l → date_pattern s = Some k → 0 < label_count k l.
Proof.
  intros Hin Hs. unfold label_count.
  assert (Hf : s ∈ filter (λ s, date_pattern s = Some k) l)
    by (by apply list_elem_of_filter).
  destruct (filter (λ s, date_pattern s = Some k) l);
    [by apply elem_of_nil in Hf | cbn; lia].
Qed.

Lemma label_count_perm k l1 l2 : l1 ≡ₚ l2 → label_count k l1 = label_count k l2.
Proof. unfold label_count. by intros ->. Qed.

Lemma uint_chars_inj d1 d2 : uint_chars d1 = uint_chars d2 → d1 = d2.
Proof.
  revert d2. induction d1 as [|d1 IH|d1 IH|d1 IH|d1 IH|d1 IH|d1 IH|d1 IH|d1 IH|d1 IH|d1 IH];
    intros [|d2|d2|d2|d2|d2|d2|d2|d2|d2|d2]; cbn; intros H;
    try discriminate H; try reflexivity;
    f_equal; apply IH; by injection H.
Qed.

Lemma pattern_label_inj n1 n2 : pattern_label n1 = pattern_label n2 → n1 = n2.
Proof.
  unfold pattern_label, str_of_nat. intros H.
  apply app_inv_tail in H.
  by apply DecimalNat.Unsigned.to_uint_inj, uint_chars_inj.
Qed.

End PatternFacts.

Section Lengths.

Implicit Types (s old : pystr).

Lemma split_first_length sep s : length (split_first sep s) ≤ length s.
Proof.
  induction s as [|c s IH]; cbn; [lia|].
  destruct (c =? sep)%N; cbn; lia.
Qed.

Lemma lstrip_length s : length (lstrip s) ≤ length s.
Proof.
  induction s as [|c s IH]; cbn; [lia|].
  destruct (isspace c); cbn; lia.
Qed.

Lemma strip_length s : length (strip s) ≤ length s.
Proof.
  unfold strip, rstrip. rewrite length_rev.
  etrans; [apply lstrip_length|]. rewrite length_rev. apply lstrip_length.
Qed.

Lemma lstrip_nil_iff s : lstrip s = [] ↔ Forall (λ c, isspace c = true) s.
Proof.
  induction s as [|c s IH]; cbn; [by split|].
  rewrite Forall_cons. destruct (isspace c) eqn:Hc.
  - rewrite IH. split; [by split | by intros [_ ?]].
  - split; [done | intros [? _]; done].
Qed.

Lemma lstrip_all_space s :
  Forall (λ c, isspace c = true) (lstrip s) ↔ Forall (λ c, isspace c = true) s.
Proof.
  induction s as [|c s IH]; cbn; [done|].
  destruct (isspace c) eqn:Hc; [|done].
  rewrite IH, Forall_cons. split; [by split | by intros [_ ?]].
Qed.

Lemma rev_nil_iff (l : pystr) : rev l = [] ↔ l = [].
Proof.
  split; [|by intros ->].
  intros H. apply (f_equal (@rev N)) in H. by rewrite rev_involutive in H.
Qed.

Lemma Forall_rev_iff (P : N → Prop) (l : pystr) : Forall P (rev l) ↔ Forall P l.
Proof.
  split; intros H; [|by apply List.Forall_rev].
  rewrite <- (rev_involutive l). by apply List.Forall_rev.
Qed.

(** Stripping leaves nothing exactly when every character is a blank. *)
Lemma strip_nil_iff s : strip s = [] ↔ Forall (λ c, isspace c = true) s.
Proof.
  unfold strip, rstrip.
  by rewrite rev_nil_iff, lstrip_nil_iff, Forall_rev_iff, lstrip_all_space.
Qed.

Lemma startswith_length old s : startswith old s = true → length old ≤ length s.
Proof.
  revert s. induction old as [|a old IH]; intros [|b s]; cbn; try done; try lia.
  intros [_ H]%andb_true_iff. apply IH in H. lia.
Qed.

(** Skipping [k] characters, then going on. *)
Lemma str_remove_go_skip old k s :
  str_remove_go old k s = str_remove_go old 0 (drop k s).
Proof.
  revert k. induction s as [|c s IH]; intros [|k]; try reflexivity.
  cbn [str_remove_go drop]. apply IH.
Qed.

Lemma str_remove_go_length old n :
  ∀ s, length s ≤ n →
    length (str_remove_go old 0 s) ≤ length s
    ∧ (old ≠ [] → str_in old s = true →
       length (str_remove_go old 0 s) + length old ≤ length s).
Proof.
  induction n as [|n IH]; intros [|c s] Hn; cbn [length] in Hn; try lia.
  - split; [done|]. intros Hne Hin. destruct old; [done | discriminate Hin].
  - split; [done|]. intros Hne Hin. destruct old; [done | discriminate Hin].
  - cbn [str_remove_go str_in].
    destruct (startswith old (c :: s)) eqn:Hsw.
    + apply startswith_length in Hsw. cbn [length] in Hsw.
      rewrite str_remove_go_skip.
      destruct (IH (drop (length old - 1) s)) as [Hle _];
        [rewrite length_drop; lia|].
      rewrite length_drop in Hle. cbn [length].
      split; [lia|]. intros Hne _.
      destruct old; [done|]. cbn [length] in *. lia.
    + cbn [orb length]. destruct (IH s ltac:(lia)) as [Hle Hin].
      split; [lia|]. intros Hne Hs. specialize (Hin Hne Hs). lia.
Qed.

(** Removing the marker from a text that contains it shortens the text by
    the four characters of the marker at least. *)
Lemma str_remove_marker_length s :
  str_in marker s = true → length (str_remove marker s) + 4 ≤ length s.
Proof.
  intros Hin.
  destruct (str_remove_go_length marker (length s) s ltac:(lia)) as [_ H].
  by apply H.
Qed.

End Lengths.

(** X6. Each counter of the finished dictionary is the number of strings,
    among the first twenty non-null texts, whose label it is; a label none
    of them has is absent from the dictionary. *)
Theorem histogram_counts (df : column) (k : pystr) :
  patterns_of (cancelled_data df) !! k
  = match label_count k (take 20 (cancelled_data df)) with
    | 0 => None
    | S n => Some (S n)
    end
  ∧ patterns_get (patterns_of (cancelled_data df)) k
    = label_count k (take 20 (cancelled_data df)).
Proof.
  unfold patterns_of, patterns_get. rewrite patterns_lookup.
  split; [done|]. by destruct (label_count k (take 20 (cancelled_data df))).
Qed.

(** X7. Every entry of the dictionary has a key of the form
    [f"{n}位數字"] and a count between 1 and 20 that does not exceed the
    number of cancelled records. *)
Theorem histogram_entries (df : column) (k : pystr) (v : nat) :
  patterns_of (cancelled_data df) !! k = Some v →
  (∃ n : nat, k = pattern_label n)
  ∧ 1 ≤ v ∧ v ≤ 20 ∧ v ≤ cancelled_transactions df.
Proof.
  unfold patterns_of. rewrite patterns_lookup. intros H.
  assert (Hv : label_count k (take 20 (cancelled_data df)) = v ∧ 1 ≤ v).
  { destruct (label_count k (take 20 (cancelled_data df)));
      [done | injection H as <-; lia]. }
  destruct Hv as [Hv Hpos].
  pose proof (label_count_le k (take 20 (cancelled_data df))) as Hle.
  rewrite length_take, <- cancelled_transactions_data, Hv in Hle.
  split; [|lia].
  destruct (label_count_pos k (take 20 (cancelled_data df))) as (s & _ & Hs);
    [lia|].
  eexists. by apply date_pattern_is_label in Hs.
Qed.

Lemma histogram_entries_witness :
  (∃ n : nat, pattern_label 7 = pattern_label n)
  ∧ 1 ≤ 2 ∧ 2 ≤ 20 ∧ 2 ≤ cancelled_transactions sample_column.
Proof.
  apply (histogram_entries sample_column (pattern_label 7) 2).
  vm_compute. reflexivity.
Defined.

(** X8. The counters of the dictionary add up to the number of visited
    texts that have a label, which is at most 20 and at most the number of
    cancelled records. *)
Theorem histogram_total (df : column) :
  counter_total (patterns_of (cancelled_data df))
    = labelled_count (take 20 (cancelled_data df))
  ∧ counter_total (patterns_of (cancelled_data df)) ≤ 20
  ∧ counter_total (patterns_of (cancelled_data df)) ≤ cancelled_transactions df.
Proof.
  unfold patterns_of. rewrite counter_total_foldl.
  assert (H0 : counter_total ∅ = 0) by reflexivity. rewrite H0.
  pose proof (length_filter (λ s, is_Some (date_pattern s))
                (take 20 (cancelled_data df))) as Hle.
  fold (labelled_count (take 20 (cancelled_data df))) in Hle.
  rewrite length_take, <- cancelled_transactions_data in Hle.
  repeat split; lia.
Qed.

(** X9. The pattern cell is skipped exactly when every record is null;
    otherwise it yields the dictionary of the non-null texts. *)
Theorem pattern_cell_skipped_iff (df : column) :
  (pattern_analysis df = None ↔ Forall (λ x, x = None) df)
  ∧ (pattern_analysis df = Some (patterns_of (cancelled_data df))
     ↔ Exists (λ x, is_Some x) df).
Proof.
  rewrite <- cancelled_zero_iff. unfold pattern_analysis.
  assert (HE : Exists (λ x : cell, is_Some x) df ↔ cancelled_transactions df ≠ 0).
  { clear. induction df as [|x df IH].
    - split; [by intros ?%Exists_nil | done].
    - rewrite Exists_cons, IH, cancelled_transactions_cons.
      destruct x; cbn.
      + split; [lia | intros _; left; by eexists].
      + split; [by intros [[? ?]|?] | by right]. }
  rewrite HE.
  destruct (Nat.ltb_spec 0 (cancelled_transactions df)).
  - split; split; try done; lia.
  - split; split; try done; lia.
Qed.

(** X10. While at most twenty records are non-null, the dictionary does not
    depend on the order of the records. *)
Theorem histogram_order_within_twenty (df df' : column) :
  df ≡ₚ df' → cancelled_transactions df ≤ 20 →
  pattern_analysis df = pattern_analysis df'.
Proof.
  intros Hperm Hle. unfold pattern_analysis.
  rewrite <- (cancelled_transactions_perm _ _ Hperm).
  destruct (0 <? cancelled_transactions df); [|done]. f_equal.
  assert (Hd : cancelled_data df ≡ₚ cancelled_data df').
  { unfold cancelled_data. by rewrite Hperm. }
  assert (Hle' : length (cancelled_data df') ≤ 20).
  { by rewrite <- Hd, <- cancelled_transactions_data. }
  rewrite cancelled_transactions_data in Hle.
  apply map_eq. intros k. unfold patterns_of.
  rewrite !patterns_lookup, !take_ge by done.
  by rewrite (label_count_perm k _ _ Hd).
Qed.

Lemma histogram_order_within_twenty_witness :
  pattern_analysis sample_column = pattern_analysis sample_column'.
Proof.
  apply histogram_order_within_twenty.
  - apply (bool_decide_unpack _). vm_compute. reflexivity.
  - vm_compute. lia.
Defined.

(** X11. Different lengths never share a counter: the labels of two
    different lengths are different keys. *)
Theorem labels_distinct (n1 n2 : nat) :
  n1 ≠ n2 → pattern_label n1 ≠ pattern_label n2.
Proof. intros Hne H. by apply Hne, pattern_label_inj. Qed.

Lemma labels_distinct_witness : pattern_label 3 ≠ pattern_label 7.
Proof. apply labels_distinct. lia. Defined.

(** X12. The length recorded for a text is bounded by the text: a text
    counted under the label of length [n] has at least [n + 4] characters
    (the four of the marker and the [n] of the measured part). *)
Theorem recorded_length_bound (s : pystr) (n : nat) :
  date_pattern s = Some (pattern_label n) →
  str_in marker s = true ∧ n + 4 ≤ length s.
Proof.
  intros H.
  assert (Hin : str_in marker s = true).
  { unfold date_pattern in H. by destruct (str_in marker s). }
  split; [done|].
  apply date_pattern_is_label, pattern_label_inj in H. subst n.
  pose proof (split_first_length semicolon (strip (str_remove marker s))).
  pose proof (strip_length (str_remove marker s)).
  pose proof (str_remove_marker_length s Hin). lia.
Qed.

Lemma recorded_length_bound_witness :
  str_in marker sample1 = true ∧ 7 + 4 ≤ length sample1.
Proof. apply (recorded_length_bound sample1 7). reflexivity. Defined.

(** X13. A text gets no label exactly when it does not contain the marker
    or when, the marker removed, only blanks are left. *)
Theorem no_label_iff (s : pystr) :
  date_pattern s = None
  ↔ str_in marker s = false
    ∨ Forall (λ c, isspace c = true) (str_remove marker s).
Proof.
  rewrite <- strip_nil_iff. unfold date_pattern.
  destruct (str_in marker s); [|by split; [left|]].
  destruct (strip (str_remove marker s)).
  - split; [by right | done].
  - split; [done | by intros [?|?]].
Qed.

(** X14. A text with a label is counted whenever fewer than twenty
    non-null records precede it, whatever follows it. *)
Theorem counted_among_first_twenty (df1 df2 : column) (s k : pystr) :
  cancelled_transactions df1 < 20 →
  date_pattern s = Some k →
  ∃ m : gmap pystr nat,
    pattern_analysis (df1 ++ Some s :: df2) = Some m
    ∧ 1 ≤ patterns_get m k.
Proof.
  intros Hlt Hs. unfold pattern_analysis.
  rewrite cancelled_transactions_app, cancelled_transactions_cons.
  cbn [notna isnull negb Nat.b2n].
  destruct (Nat.ltb_spec 0 (cancelled_transactions df1
                             + (1 + cancelled_transactions df2))); [|lia].
  eexists. split; [reflexivity|].
  unfold patterns_of, patterns_get. rewrite patterns_lookup.
  rewrite cancelled_data_app. cbn [cancelled_data omap].
  change (omap id df2) with (cancelled_data df2).
  rewrite cancelled_transactions_data in Hlt.
  assert (Hin : s ∈ take 20 (cancelled_data df1 ++ id s :: cancelled_data df2)).
  { apply elem_of_take. exists (length (cancelled_data df1)).
    split; [apply list_lookup_middle; done | done]. }
  pose proof (label_count_elem k _ s Hin Hs) as Hpos.
  destruct (label_count k _); cbn; lia.
Qed.

Lemma counted_among_first_twenty_witness :
  ∃ m : gmap pystr nat,
    pattern_analysis ([None; Some sample1] ++ Some sampleABC :: twenty_records)
    = Some m
    ∧ 1 ≤ patterns_get m (pattern_label 3).
Proof.
  apply counted_among_first_twenty.
  - vm_compute. lia.
  - reflexivity.
Defined.

(** ** The value counts and the samples *)

Section ValueCounts.

Implicit Types (m : gmap pystr nat) (s k : pystr) (l : list pystr).

Lemma counts_total_foldl m l :
  counter_total
    (foldl (λ counts s, <[s := patterns_get counts s + 1]> counts) m l)
  = counter_total m + length l.
Proof.
  revert m. induction l as [|s l IH]; intros m; cbn [foldl length]; [lia|].
  rewrite IH, counter_total_bump. lia.
Qed.

Lemma counts_get_step m s k :
  patterns_get (<[s := patterns_get m s + 1]> m) k
  = patterns_get m k + (if decide (s = k) then 1 else 0).
Proof.
  unfold patterns_get. destruct (decide (s = k)) as [->|Hne].
  - by rewrite lookup_insert_eq.
  - rewrite lookup_insert_ne by done. lia.
Qed.

Lemma counts_get_foldl m l k :
  patterns_get
    (foldl (λ counts s, <[s := patterns_get counts s + 1]> counts) m l) k
  = patterns_get m k + length (filter (λ s, s = k) l).
Proof.
  revert m. induction l as [|s l IH]; intros m; cbn [foldl]; [cbn; lia|].
  rewrite IH, counts_get_step, filter_cons.
  destruct (decide (s = k)); cbn [length]; lia.
Qed.

Lemma counts_positive l m :
  (∀ k v, m !! k = Some v → 1 ≤ v) →
  ∀ k v,
    foldl (λ counts s, <[s := patterns_get counts s + 1]> counts) m l !! k
    = Some v → 1 ≤ v.
Proof.
  revert m. induction l as [|s l IH]; intros m Hm; [exact Hm|].
  cbn [foldl]. apply IH. intros k v.
  destruct (decide (s = k)) as [->|Hne].
  - rewrite lookup_insert_eq. intros [= <-]. lia.
  - rewrite lookup_insert_ne by done. apply Hm.
Qed.

Lemma size_le_total m :
  (∀ k v, m !! k = Some v → 1 ≤ v) → size m ≤ counter_total m.
Proof.
  induction m as [|k v m Hk IH] using map_ind; intros Hpos.
  - by rewrite map_size_empty.
  - rewrite map_size_insert_None, counter_total_insert_fresh by done.
    assert (1 ≤ v) by (apply (Hpos k); by rewrite lookup_insert_eq).
    assert (size m ≤ counter_total m); [|lia].
    apply IH. intros k' v' Hk'. apply (Hpos k').
    rewrite lookup_insert_ne; [done|]. intros ->. congruence.
Qed.

Lemma value_counts_get (df : column) s :
  patterns_get (value_counts df) s
  = length (filter (λ t, t = s) (cancelled_data df)).
Proof.
  unfold value_counts, dropna. fold (cancelled_data df).
  rewrite counts_get_foldl. reflexivity.
Qed.

Lemma value_counts_positive (df : column) s v :
  value_counts df !! s = Some v → 1 ≤ v.
Proof.
  unfold value_counts. apply counts_positive.
  intros ? ?. by rewrite lookup_empty.
Qed.

Lemma elem_of_cancelled_data (df : column) s :
  s ∈ cancelled_data df ↔ Some s ∈ df.
Proof.
  unfold cancelled_data. rewrite list_elem_of_omap. split.
  - intros (x & Hx & Hs). cbn in Hs. by subst x.
  - intros H. by exists (Some s).
Qed.

Lemma value_counts_is_Some (df : column) s :
  is_Some (value_counts df !! s) ↔ Some s ∈ df.
Proof.
  rewrite <- elem_of_cancelled_data.
  pose proof (value_counts_get df s) as Hget.
  pose proof (value_counts_positive df s) as Hpos.
  unfold patterns_get in Hget.
  destruct (value_counts df !! s) as [v|] eqn:Hs.
  - specialize (Hpos v eq_refl). cbn in Hget. unfold id in Hget.
    split; [intros _|by eexists].
    destruct (filter (λ t, t = s) (cancelled_data df)) as [|t r] eqn:Hf;
      [cbn in Hget; lia|].
    assert (Hin : t ∈ filter (λ t, t = s) (cancelled_data df))
      by (rewrite Hf; left).
    apply list_elem_of_filter in Hin as [-> ?]. done.
  - cbn in Hget. split; [by intros [? ?]|]. intros Hin.
    assert (Hf : s ∈ filter (λ t, t = s) (cancelled_data df))
      by (by apply list_elem_of_filter).
    destruct (filter (λ t, t = s) (cancelled_data df));
      [by apply elem_of_nil in Hf | cbn in Hget; lia].
Qed.

End ValueCounts.

(** X15. The value counts of the column account for every non-null
    record exactly once: the counts add up to the number of cancelled
    records, each listed value occurs at least once, the number of
    distinct values is at most the number of cancelled records, and with
    the null records they make up the whole table. *)
Theorem value_counts_total (df : column) :
  counter_total (cancellation_counts df) = cancelled_transactions df
  ∧ size (cancellation_counts df) ≤ cancelled_transactions df
  ∧ normal_transactions df + counter_total (cancellation_counts df)
    = total_transactions df
  ∧ ∀ s : pystr,
      patterns_get (cancellation_counts df) s
        = length (filter (λ t, t = s) (cancelled_data df))
      ∧ (is_Some (cancellation_counts df !! s) ↔ Some s ∈ df).
Proof.
  assert (Htot : counter_total (cancellation_counts df)
                 = cancelled_transactions df).
  { unfold cancellation_counts, value_counts, dropna.
    fold (cancelled_data df).
    rewrite counts_total_foldl, cancelled_transactions_data. reflexivity. }
  split; [exact Htot|].
  split; [rewrite <- Htot; apply size_le_total, value_counts_positive|].
  split; [rewrite Htot; apply normal_plus_cancelled|].
  intros s. split; [apply value_counts_get | apply value_counts_is_Some].
Qed.

(** X16. The printed samples are the first ten of the strings the pattern
    loop visits, numbered from 1 without gaps; there are as many as there
    are cancelled records, up to ten. *)
Theorem samples_prefix (df : column) :
  cancellation_samples df = take 10 (take 20 (cancelled_data df))
  ∧ length (cancellation_samples df) = Nat.min 10 (cancelled_transactions df)
  ∧ (fst <$> sample_lines df) = seq 1 (length (cancellation_samples df))
  ∧ (snd <$> sample_lines df) = cancellation_samples df
  ∧ ∀ rest : column,
      10 ≤ cancelled_transactions df →
      cancellation_samples (df ++ rest) = cancellation_samples df.
Proof.
  unfold cancellation_samples, sample_lines.
  split; [by rewrite take_take|].
  split; [by rewrite length_take, cancelled_transactions_data|].
  split; [|split].
  - rewrite fmap_imap.
    rewrite (imap_ext _ (λ j _, S j)) by (intros; cbn; lia).
    by rewrite imap_seq_0, fmap_S_seq.
  - rewrite fmap_imap.
    rewrite (imap_ext _ (const id)) by done.
    by rewrite imap_const, list_fmap_id.
  - intros rest Hle. rewrite cancelled_data_app, take_app_le; [done|].
    by rewrite <- cancelled_transactions_data.
Qed.

Lemma samples_prefix_witness :
  cancellation_samples (twenty_records ++ [Some sampleABC])
  = cancellation_samples twenty_records.
Proof.
  destruct (samples_prefix twenty_records) as (_ & _ & _ & _ & H).
  apply H. vm_compute. lia.
Defined.

(** ** The match rate of the identifiers *)

Section MatchRate.

Implicit Types (a b : column) (A B : gset pystr).

Lemma id_set_elem a s : s ∈ id_set a ↔ Some s ∈ a.
Proof.
  unfold id_set, dropna. rewrite elem_of_list_to_set, list_elem_of_omap.
  split.
  - intros (x & Hx & Hs). cbn in Hs. by subst x.
  - intros H. by exists (Some s).
Qed.

Lemma id_set_empty_iff a : id_set a = ∅ ↔ Forall (λ x, x = None) a.
Proof.
  rewrite Forall_forall. split.
  - intros H [s|] Hin; [|done].
    apply id_set_elem in Hin. rewrite H in Hin. by apply not_elem_of_empty in Hin.
  - intros H. apply set_eq. intros s. rewrite id_set_elem.
    split; [|by intros ?%not_elem_of_empty]. intros Hin. by apply H in Hin.
Qed.

Lemma inter_size_le_max A B : size (A ∩ B) ≤ Nat.max (size A) (size B).
Proof.
  assert (size (A ∩ B) ≤ size A)
    by apply subseteq_size, intersection_subseteq_l.
  lia.
Qed.

Lemma inter_size_eq_max A B :
  size (A ∩ B) = Nat.max (size A) (size B) ↔ A = B.
Proof.
  split.
  - intros H.
    assert (HA : A ∩ B = A)
      by (apply set_subseteq_size_eq; [apply intersection_subseteq_l | lia]).
    assert (HB : A ∩ B = B)
      by (apply set_subseteq_size_eq; [apply intersection_subseteq_r | lia]).
    congruence.
  - intros ->. rewrite (idemp_L (∩) B). lia.
Qed.

Lemma max_size_zero_iff A B :
  Nat.max (size A) (size B) = 0 ↔ A = ∅ ∧ B = ∅.
Proof.
  split.
  - intros H. split; apply leibniz_equiv, size_empty_inv; lia.
  - intros [-> ->]. by rewrite size_empty.
Qed.

Lemma match_rate_value a b :
  0 < Nat.max (size (id_set a)) (size (id_set b)) →
  match_rate a b
  = Returned ((Z.of_nat (size (id_set a ∩ id_set b))
               # Pos.of_nat (Nat.max (size (id_set a)) (size (id_set b))))
              * 100)%Q.
Proof.
  intros H. unfold match_rate, int_true_divide.
  destruct (Nat.max (size (id_set a)) (size (id_set b))); [lia | done].
Qed.

End MatchRate.

(** X17. The match rate raises [ZeroDivisionError] exactly when neither
    table has a non-null identifier; in every other case it returns a
    value. *)
Theorem match_rate_raises_iff (a b : column) :
  match_rate a b = ZeroDivisionError
  ↔ Forall (λ x, x = None) a ∧ Forall (λ x, x = None) b.
Proof.
  rewrite <- !id_set_empty_iff, <- max_size_zero_iff.
  unfold match_rate, int_true_divide.
  destruct (Nat.max (size (id_set a)) (size (id_set b))); split; try done; lia.
Qed.

(** X18. A match rate that is returned lies between 0 and 100; it is 100
    exactly when the two tables have the same set of identifiers, and 0
    exactly when they have no identifier in common. *)
Theorem match_rate_bounds (a b : column) (q : Q) :
  match_rate a b = Returned q →
  (0 <= q)%Q ∧ (q <= 100)%Q
  ∧ ((q == 100)%Q ↔ id_set a = id_set b)
  ∧ ((q == 0)%Q ↔ id_set a ∩ id_set b = ∅).
Proof.
  intros H.
  assert (Hd : 0 < Nat.max (size (id_set a)) (size (id_set b))).
  { unfold match_rate, int_true_divide in H.
    destruct (Nat.max (size (id_set a)) (size (id_set b))); [done | lia]. }
  rewrite (match_rate_value a b Hd) in H. injection H as <-.
  pose proof (inter_size_le_max (id_set a) (id_set b)) as Hle.
  rewrite <- inter_size_eq_max.
  assert (He : id_set a ∩ id_set b = ∅ ↔ size (id_set a ∩ id_set b) = 0).
  { split; [intros ->; apply size_empty|].
    intros H0. by apply leibniz_equiv, size_empty_inv. }
  rewrite He.
  unfold Qle, Qeq, Qmult. cbn [Qnum Qden].
  rewrite !Pos2Z.inj_mul, !Zpos_of_nat by done.
  repeat split; intros; nia.
Qed.

Lemma match_rate_bounds_witness :
  match_rate community_ids_sample transaction_ids_sample = Returned (100 # 2)
  ∧ (0 <= 100 # 2)%Q ∧ (100 # 2 <= 100)%Q.
Proof.
  assert (H : match_rate community_ids_sample transaction_ids_sample
              = Returned (100 # 2)) by (vm_compute; reflexivity).
  destruct (match_rate_bounds _ _ _ H) as (H1 & H2 & _).
  split; [exact H | split; [exact H1 | exact H2]].
Defined.

(** X19. The match rate only depends on which identifiers occur in each
    table, not on the order of the rows, on repeated rows or on null
    cells, and it is the same whichever table is taken first. *)
Theorem match_rate_set_based (a a' b b' : column) :
  (∀ s : pystr, Some s ∈ a ↔ Some s ∈ a') →
  (∀ s : pystr, Some s ∈ b ↔ Some s ∈ b') →
  match_rate a b = match_rate a' b'
  ∧ match_rate a b = match_rate b a.
Proof.
  intros Ha Hb.
  assert (HA : id_set a = id_set a').
  { apply set_eq. intros s. by rewrite !id_set_elem. }
  assert (HB : id_set b = id_set b').
  { apply set_eq. intros s. by rewrite !id_set_elem. }
  unfold match_rate. rewrite HA, HB. split; [done|].
  by rewrite (comm_L (∩) (id_set a') (id_set b')), Nat.max_comm.
Qed.

Lemma match_rate_set_based_witness :
  match_rate community_ids_sample transaction_ids_sample
  = match_rate community_ids_sample' transaction_ids_sample
  ∧ match_rate community_ids_sample transaction_ids_sample
    = match_rate transaction_ids_sample community_ids_sample.
Proof.
  apply match_rate_set_based.
  - intros s. unfold community_ids_sample, community_ids_sample'.
    rewrite !elem_of_cons, !elem_of_nil. tauto.
  - done.
Defined.

(** X20. Every percentage printed for a listed value is well defined: a
    value that [value_counts] lists occurs in the table, so the table is
    not empty, the division does not raise, and the quotient is a number
    above 0 and at most 100. *)
Theorem percentage_defined (df : column) (city : pystr) (count : nat) :
  value_counts df !! city = Some count →
  ∃ q : Q, percentage count df = Returned q ∧ (0 < q)%Q ∧ (q <= 100)%Q.
Proof.
  intros H.
  pose proof (value_counts_get df city) as Hget.
  unfold patterns_get in Hget. rewrite H in Hget. cbn in Hget.
  pose proof (value_counts_positive df city count H) as Hpos.
  assert (Hle : count ≤ length df).
  { rewrite Hget. etrans; [apply length_filter|].
    rewrite <- cancelled_transactions_data. apply cancelled_le_total. }
  unfold percentage, int_true_divide.
  destruct (length df) as [|n] eqn:Hn; [lia|]. rewrite <- Hn.
  eexists. split; [reflexivity|].
  unfold Qlt, Qle, Qmult. cbn [Qnum Qden].
  rewrite !Pos2Z.inj_mul, !Zpos_of_nat by lia. split; nia.
Qed.

Lemma percentage_defined_witness :
  ∃ q : Q,
    percentage 2 transaction_ids_sample = Returned q
    ∧ (0 < q)%Q ∧ (q <= 100)%Q.
Proof.
  apply (percentage_defined transaction_ids_sample (str_of_ascii "A2") 2).
  vm_compute. reflexivity.
Defined.

(** ** The cells that load the tables *)

(** X21. When both raw files can be read, the two notebooks bind them
    crosswise: the cancellation notebook binds [transaction_df] to the
    table the exploration notebook binds to [community_df], and
    [community_df] to the other one. *)
Theorem frames_crossed {frame : Type}
    (read_csv : csv_file → frame + exn) (k1 k2 : kernel frame) (c t : frame) :
  read_csv community_csv = inl c →
  read_csv transaction_csv = inl t →
  community_df (vars (load_exploration read_csv k1)) = Some c
  ∧ transaction_df (vars (load_exploration read_csv k1)) = Some t
  ∧ transaction_df (vars (load_cancellation read_csv k2))
    = community_df (vars (load_exploration read_csv k1))
  ∧ community_df (vars (load_cancellation read_csv k2))
    = transaction_df (vars (load_exploration read_csv k1)).
Proof.
  intros Hc Ht. unfold load_exploration, load_cancellation.
  rewrite Hc, Ht.
  destruct (read_csv summary_csv) as [b|[|]]; cbn; done.
Qed.

Lemma frames_crossed_witness :
  community_df (vars (load_exploration sample_files fresh_kernel))
  = Some community_ids_sample
  ∧ transaction_df (vars (load_exploration sample_files fresh_kernel))
    = Some transaction_ids_sample
  ∧ transaction_df (vars (load_cancellation sample_files fresh_kernel))
    = community_df (vars (load_exploration sample_files fresh_kernel))
  ∧ community_df (vars (load_cancellation sample_files fresh_kernel))
    = transaction_df (vars (load_exploration sample_files fresh_kernel)).
Proof. by apply frames_crossed. Defined.

(** X22. In the cancellation notebook a missing summary file is not an
    error: when both raw files can be read both tables are bound whatever
    happens with the summary, [basic_stats] is bound to [None] exactly
    when the summary file is not found, and it keeps its earlier binding
    when reading the summary fails in another way. *)
Theorem summary_optional {frame : Type}
    (read_csv : csv_file → frame + exn) (k : kernel frame) (c t : frame) :
  read_csv community_csv = inl c →
  read_csv transaction_csv = inl t →
  transaction_df (vars (load_cancellation read_csv k)) = Some c
  ∧ community_df (vars (load_cancellation read_csv k)) = Some t
  ∧ (basic_stats (vars (load_cancellation read_csv k)) = Some None
     ↔ read_csv summary_csv = inr FileNotFoundError
       ∨ (read_csv summary_csv = inr OtherException
          ∧ basic_stats k = Some None))
  ∧ (read_csv summary_csv = inr OtherException →
     basic_stats (vars (load_cancellation read_csv k)) = basic_stats k)
  ∧ (∀ b, read_csv summary_csv = inl b →
     basic_stats (vars (load_cancellation read_csv k)) = Some (Some b)).
Proof.
  intros Hc Ht. unfold load_cancellation. rewrite Hc, Ht.
  destruct (read_csv summary_csv) as [b|[|]]; cbn;
    repeat split; try done; try (intros [?|[? ?]]; done);
    try (intros ?; by left); try (by intros ? [= ->]).
  intros H. by right.
Qed.

Lemma summary_optional_witness :
  transaction_df (vars (load_cancellation sample_files fresh_kernel))
  = Some community_ids_sample
  ∧ community_df (vars (load_cancellation sample_files fresh_kernel))
    = Some transaction_ids_sample
  ∧ basic_stats (vars (load_cancellation sample_files fresh_kernel))
    = Some None.
Proof.
  destruct (summary_optional sample_files fresh_kernel
              community_ids_sample transaction_ids_sample eq_refl eq_refl)
    as (H1 & H2 & H3 & _).
  split; [exact H1 | split; [exact H2|]].
  apply H3. by left.
Defined.

(** X23. A failed load is only reported by printing. If the first file
    cannot be read, no variable of either notebook changes and no other
    file is opened; in the exploration notebook [transaction_df] is
    rebound only when both files were read, so after any failure it still
    holds whatever it held before. *)
Theorem load_failure_keeps_bindings {frame : Type}
    (read_csv : csv_file → frame + exn) (k : kernel frame) :
  (∀ e, read_csv community_csv = inr e →
     vars (load_exploration read_csv k) = k
     ∧ opened (load_exploration read_csv k) = [community_csv]
     ∧ vars (load_cancellation read_csv k) = k
     ∧ opened (load_cancellation read_csv k) = [community_csv])
  ∧ (transaction_df (vars (load_exploration read_csv k)) = transaction_df k
     ∨ ∃ c t, read_csv community_csv = inl c
              ∧ read_csv transaction_csv = inl t
              ∧ vars (load_exploration read_csv k)
                = mkKernel (Some c) (Some t) (basic_stats k)).
Proof.
  unfold load_exploration, load_cancellation. split.
  - intros e ->. done.
  - destruct (read_csv community_csv) as [c|e]; [|by left].
    destruct (read_csv transaction_csv) as [t|e]; [|by left].
    right. by exists c, t.
Qed.

Lemma load_failure_keeps_bindings_witness :
  vars (load_exploration no_files fresh_kernel) = fresh_kernel
  ∧ opened (load_exploration no_files fresh_kernel) = [community_csv]
  ∧ vars (load_cancellation no_files fresh_kernel) = fresh_kernel
  ∧ opened (load_cancellation no_files fresh_kernel) = [community_csv].
Proof.
  apply (proj1 (load_failure_keeps_bindings no_files fresh_kernel)
           FileNotFoundError).
  reflexivity.
Defined.

(** ** The quality of the key fields *)

Example sample_frame_completeness :
  completeness sample_frame community_key_fields
  = Returned (SFinite ((1 - (5 # 12)) * 100)).
Proof. vm_compute. reflexivity. Qed.

Example sample_frame_null_rate :
  null_rate sample_frame [25142; 25976]%N = Returned (Finite ((1 # 2) * 100)).
Proof. vm_compute. reflexivity. Qed.

Section KeyFields.

Implicit Types (df : DataFrame) (col : column) (cols : list column)
  (ks : list pystr) (f : pystr).

Lemma null_count_le col : null_count col ≤ length col.
Proof.
  pose proof (normal_plus_cancelled col) as H.
  unfold null_count, normal_transactions, total_transactions in *. lia.
Qed.

Lemma null_count_zero_iff col :
  null_count col = 0 ↔ Forall (λ x, is_Some x) col.
Proof. apply normal_zero_iff. Qed.

Lemma sum_null_count_le cols n :
  Forall (λ col, length col = n) cols →
  sum_list (null_count <$> cols) ≤ n * length cols.
Proof.
  induction 1 as [|col cols Hcol _ IH]; cbn; [lia|].
  pose proof (null_count_le col). lia.
Qed.

Lemma sum_null_count_zero_iff cols :
  sum_list (null_count <$> cols) = 0
  ↔ Forall (λ col, Forall (λ x, is_Some x) col) cols.
Proof.
  induction cols as [|col cols IH]; cbn; [by split|].
  rewrite Forall_cons, <- IH, <- null_count_zero_iff. lia.
Qed.

Lemma select_Returned df ks cols :
  select df ks = Returned cols
  ↔ Forall2 (λ f col, columns df !! f = Some col) ks cols.
Proof.
  unfold select. rewrite <- mapM_Some.
  destruct (mapM _ ks); split; intros H; try done; congruence.
Qed.

Lemma select_KeyError df ks :
  select df ks = KeyError ↔ Exists (λ f, columns df !! f = None) ks.
Proof.
  unfold select. rewrite <- mapM_None.
  by destruct (mapM _ ks).
Qed.

Lemma select_present df ks :
  Forall (λ f, is_Some (columns df !! f)) ks →
  ∃ cols, select df ks = Returned cols
          ∧ Forall2 (λ f col, columns df !! f = Some col) ks cols.
Proof.
  intros H.
  destruct (mapM_is_Some_2 (λ f, columns df !! f) ks) as [cols Hc].
  { eapply Forall_impl; [exact H | done]. }
  exists cols. split.
  - unfold select. by rewrite Hc.
  - by apply mapM_Some.
Qed.

Lemma selected_lengths df ks cols :
  well_formed df →
  Forall2 (λ f col, columns df !! f = Some col) ks cols →
  Forall (λ col, length col = nrows df) cols ∧ length cols = length ks.
Proof.
  intros Hwf H. split; [|symmetry; by eapply Forall2_length].
  induction H as [|f col ks cols Hf _ IH]; constructor; [|done].
  by apply (Hwf f).
Qed.

Lemma Pos_of_nat_mul n k :
  0 < n → 0 < k → Z.pos (Pos.of_nat (n * k)) = (Z.of_nat n * Z.of_nat k)%Z.
Proof. intros Hn Hk. rewrite Zpos_of_nat by nia. lia. Qed.

End KeyFields.

(** X24. On a well-formed table with at least one row, for a non-empty
    list of key fields that are all columns, the completeness is a number
    between 0 and 100, and it is 100 exactly when no cell of a key field
    is null. *)
Theorem completeness_bounds (df : DataFrame) (key_fields : list pystr) :
  well_formed df →
  0 < nrows df →
  key_fields ≠ [] →
  Forall (λ field, is_Some (columns df !! field)) key_fields →
  ∃ q : Q,
    completeness df key_fields = Returned (SFinite q)
    ∧ (0 <= q)%Q ∧ (q <= 100)%Q
    ∧ ((q == 100)%Q
       ↔ Forall (λ field, ∃ col, columns df !! field = Some col
                                 ∧ Forall (λ x, is_Some x) col) key_fields).
Proof.
  intros Hwf Hn Hne Hpresent.
  destruct (select_present df key_fields Hpresent) as (cols & Hsel & Hcols).
  destruct (selected_lengths df key_fields cols Hwf Hcols) as [Hlen Hk].
  pose proof (sum_null_count_le cols (nrows df) Hlen) as Hsum.
  rewrite Hk in Hsum.
  assert (Hkpos : 0 < length key_fields) by (destruct key_fields; [done | cbn; lia]).
  unfold completeness. rewrite Hsel.
  rewrite true_divide_pos by nia. cbn [one_minus stimes100].
  eexists. split; [reflexivity|].
  assert (Hall : Forall (λ field, ∃ col, columns df !! field = Some col
                            ∧ Forall (λ x, is_Some x) col) key_fields
                 ↔ sum_list (null_count <$> cols) = 0).
  { rewrite sum_null_count_zero_iff. clear -Hcols.
    induction Hcols as [|f col ks cols Hf _ IH].
    - split; constructor.
    - rewrite !Forall_cons, IH. split.
      + intros [(col' & Hc & Hall) ?]. split; [congruence | done].
      + intros [? ?]. split; [by exists col | done]. }
  rewrite Hall.
  unfold Qle, Qeq, Qminus, Qplus, Qopp, Qmult. cbn [Qnum Qden].
  rewrite !Pos2Z.inj_mul, !Pos_of_nat_mul by done.
  repeat split; intros; nia.
Qed.

Lemma completeness_bounds_witness :
  ∃ q : Q,
    completeness sample_frame community_key_fields = Returned (SFinite q)
    ∧ (0 <= q)%Q ∧ (q <= 100)%Q
    ∧ ((q == 100)%Q
       ↔ Forall (λ field, ∃ col, columns sample_frame !! field = Some col
                                 ∧ Forall (λ x, is_Some x) col)
           community_key_fields).
Proof.
  apply completeness_bounds.
  - apply (bool_decide_unpack _). vm_compute. reflexivity.
  - vm_compute. lia.
  - discriminate.
  - apply (bool_decide_unpack _). vm_compute. reflexivity.
Defined.

Section Rates.

Implicit Types (df : DataFrame) (cols : list column) (ks : list pystr)
  (rates : list Q).

Lemma null_rate_finite df f r :
  null_rate df f = Returned (Finite r) →
  0 < nrows df
  ∧ ∃ col, columns df !! f = Some col
           ∧ r = ((Z.of_nat (null_count col) # Pos.of_nat (nrows df)) * 100)%Q.
Proof.
  unfold null_rate. destruct (columns df !! f) as [col|]; [|done].
  intros [= H]. unfold true_divide in H.
  destruct (nrows df) as [|n] eqn:Hn.
  - by destruct (null_count col).
  - cbn [times100] in H. injection H as <-.
    split; [lia|]. by exists col.
Qed.

Lemma rate_of_count (a n : nat) :
  0 < n → a ≤ n →
  (0 <= (Z.of_nat a # Pos.of_nat n) * 100)%Q
  ∧ ((Z.of_nat a # Pos.of_nat n) * 100 <= 100)%Q
  ∧ (((Z.of_nat a # Pos.of_nat n) * 100 == 0)%Q ↔ a = 0)
  ∧ (((Z.of_nat a # Pos.of_nat n) * 100 == 100)%Q ↔ a = n).
Proof.
  intros Hn Ha. unfold Qle, Qeq, Qmult. cbn [Qnum Qden].
  rewrite !Pos2Z.inj_mul, !Zpos_of_nat by done.
  repeat split; intros; nia.
Qed.

(** Counts that are each at most [n] add up to [n] times their number
    exactly when each of them is [n]. *)
Lemma sum_full_iff (l : list nat) (n : nat) :
  Forall (λ a, a ≤ n) l →
  (sum_list l = n * length l ↔ Forall (λ a, a = n) l).
Proof.
  induction 1 as [|a l Ha Hl IH]; cbn [sum_list_with length]; [by split|].
  assert (Hle : sum_list l ≤ n * length l).
  { clear -Hl. induction Hl as [|b l Hb _ IH]; cbn [sum_list_with length];
      [lia|]. change (id b) with b. nia. }
  rewrite Forall_cons, <- IH. change (id a) with a. nia.
Qed.

Lemma sum_zero_iff (l : list nat) :
  sum_list l = 0 ↔ Forall (λ a, a = 0) l.
Proof.
  induction l as [|a l IH]; cbn [sum_list_with]; [by split|].
  rewrite Forall_cons, <- IH. change (id a) with a. lia.
Qed.

(** The null rates of the key fields are those of the selected columns. *)
Lemma rates_of_columns df ks rates :
  Forall2 (λ f r, null_rate df f = Returned (Finite r)) ks rates →
  ∃ cols,
    Forall2 (λ f col, columns df !! f = Some col) ks cols
    ∧ Forall2 (λ col r,
         r = ((Z.of_nat (null_count col) # Pos.of_nat (nrows df)) * 100)%Q)
        cols rates.
Proof.
  induction 1 as [|f r ks rates Hr _ (cols & Hcols & IH)].
  - exists []. split; constructor.
  - apply null_rate_finite in Hr as (_ & col & Hcol & ->).
    exists (col :: cols). split; by constructor.
Qed.

End Rates.

(** X25. On a well-formed table the completeness and the null rates that
    the quality check prints for the same key fields agree at both ends:
    every null rate lies between 0 and 100, the completeness is 100
    exactly when every null rate is 0, and it is 0 exactly when every null
    rate is 100. *)
Theorem completeness_and_null_rates
    (df : DataFrame) (key_fields : list pystr) (rates : list Q) (q : Q) :
  well_formed df →
  Forall2 (λ field r, null_rate df field = Returned (Finite r))
    key_fields rates →
  completeness df key_fields = Returned (SFinite q) →
  Forall (λ r, (0 <= r)%Q ∧ (r <= 100)%Q) rates
  ∧ ((q == 100)%Q ↔ Forall (λ r, (r == 0)%Q) rates)
  ∧ ((q == 0)%Q ↔ Forall (λ r, (r == 100)%Q) rates).
Proof.
  intros Hwf Hrates Hq.
  destruct (rates_of_columns df key_fields rates Hrates) as (cols & Hcols & Hr).
  assert (Hk : 0 < length key_fields ∧ 0 < nrows df).
  { destruct Hrates as [|f r ks rs Hr0 _].
    - apply select_Returned in Hcols. unfold completeness in Hq.
      rewrite Hcols in Hq. injection Hcols as <-.
      cbn [length] in Hq. rewrite Nat.mul_0_r in Hq. discriminate Hq.
    - apply null_rate_finite in Hr0 as [? _]. cbn. lia. }
  destruct Hk as [Hk Hn].
  destruct (selected_lengths df key_fields cols Hwf Hcols) as [Hlen Hkc].
  assert (Hbound : Forall (λ a, a ≤ nrows df) (null_count <$> cols)).
  { apply Forall_fmap. eapply Forall_impl; [exact Hlen|].
    intros col Hcol. cbn. rewrite <- Hcol. apply null_count_le. }
  pose proof (sum_null_count_le cols (nrows df) Hlen) as Hsum.
  pose proof (sum_full_iff (null_count <$> cols) (nrows df) Hbound) as Hfull.
  pose proof (sum_zero_iff (null_count <$> cols)) as Hzero.
  rewrite length_fmap in Hfull. rewrite Hkc in Hsum, Hfull.
  assert (Hall0 : Forall (λ r, (r == 0)%Q) rates
                  ↔ Forall (λ a, a = 0) (null_count <$> cols)).
  { rewrite Forall_fmap. clear -Hr Hlen Hn.
    induction Hr as [|col r cols rates -> _ IH]; [by split|].
    apply Forall_cons in Hlen as [Hc Hlen].
    rewrite !Forall_cons, IH by done. cbn.
    pose proof (null_count_le col). rewrite Hc in *.
    by rewrite (proj1 (proj2 (proj2 (rate_of_count _ _ Hn H)))). }
  assert (Hall100 : Forall (λ r, (r == 100)%Q) rates
                    ↔ Forall (λ a, a = nrows df) (null_count <$> cols)).
  { rewrite Forall_fmap. clear -Hr Hlen Hn.
    induction Hr as [|col r cols rates -> _ IH]; [by split|].
    apply Forall_cons in Hlen as [Hc Hlen].
    rewrite !Forall_cons, IH by done. cbn.
    pose proof (null_count_le col). rewrite Hc in *.
    by rewrite (proj2 (proj2 (proj2 (rate_of_count _ _ Hn H)))). }
  assert (Hbounds : Forall (λ r, (0 <= r)%Q ∧ (r <= 100)%Q) rates).
  { clear -Hr Hlen Hn.
    induction Hr as [|col r cols rates -> _ IH]; [constructor|].
    apply Forall_cons in Hlen as [Hc Hlen].
    constructor; [|by apply IH].
    pose proof (null_count_le col). rewrite Hc in *.
    destruct (rate_of_count _ _ Hn H) as (? & ? & _). done. }
  split; [exact Hbounds|].
  rewrite Hall0, Hall100, <- Hzero, <- Hfull.
  apply select_Returned in Hcols. unfold completeness in Hq.
  rewrite Hcols, true_divide_pos in Hq by nia.
  cbn [one_minus stimes100] in Hq. injection Hq as <-.
  unfold Qeq, Qminus, Qplus, Qopp, Qmult. cbn [Qnum Qden].
  rewrite !Pos2Z.inj_mul, !Pos_of_nat_mul by done.
  split; split; intros; nia.
Qed.

Lemma completeness_and_null_rates_witness :
  Forall (λ r, (0 <= r)%Q ∧ (r <= 100)%Q)
    [ (0 # 2) * 100; (1 # 2) * 100; (1 # 2) * 100;
      (1 # 2) * 100; (1 # 2) * 100; (1 # 2) * 100 ]%Q
  ∧ (((1 - (5 # 12)) * 100 == 100)%Q
     ↔ Forall (λ r, (r == 0)%Q)
         [ (0 # 2) * 100; (1 # 2) * 100; (1 # 2) * 100;
           (1 # 2) * 100; (1 # 2) * 100; (1 # 2) * 100 ]%Q)
  ∧ (((1 - (5 # 12)) * 100 == 0)%Q
     ↔ Forall (λ r, (r == 100)%Q)
         [ (0 # 2) * 100; (1 # 2) * 100; (1 # 2) * 100;
           (1 # 2) * 100; (1 # 2) * 100; (1 # 2) * 100 ]%Q).
Proof.
  apply (completeness_and_null_rates sample_frame community_key_fields).
  - apply (bool_decide_unpack _). vm_compute. reflexivity.
  - repeat constructor.
  - vm_compute. reflexivity.
Defined.

(** X26. The quality expressions fail only on a missing column: the
    completeness raises [KeyError] exactly when a key field is not a
    column and never raises [ZeroDivisionError], a null rate raises
    [KeyError] exactly when its field is not a column, and on a
    well-formed table whose key fields are all columns the completeness is
    nan exactly when the table has no row or there is no key field. *)
Theorem quality_errors (df : DataFrame) (key_fields : list pystr) :
  (completeness df key_fields = KeyError
   ↔ Exists (λ field, columns df !! field = None) key_fields)
  ∧ completeness df key_fields ≠ ZeroDivisionError
  ∧ (∀ field, null_rate df field = KeyError ↔ columns df !! field = None)
  ∧ (∀ field, null_rate df field ≠ ZeroDivisionError)
  ∧ (well_formed df →
     Forall (λ field, is_Some (columns df !! field)) key_fields →
     (completeness df key_fields = Returned SNaN
      ↔ nrows df = 0 ∨ key_fields = [])).
Proof.
  split; [|split; [|split; [|split]]].
  - rewrite <- select_KeyError. unfold completeness.
    by destruct (select df key_fields).
  - unfold completeness, select.
    by destruct (mapM _ key_fields).
  - intros field. unfold null_rate. by destruct (columns df !! field).
  - intros field. unfold null_rate. by destruct (columns df !! field).
  - intros Hwf Hpresent.
    destruct (select_present df key_fields Hpresent) as (cols & Hsel & Hcols).
    destruct (selected_lengths df key_fields cols Hwf Hcols) as [Hlen Hk].
    pose proof (sum_null_count_le cols (nrows df) Hlen) as Hsum.
    rewrite Hk in Hsum.
    unfold completeness. rewrite Hsel.
    assert (Hz : nrows df = 0 ∨ key_fields = []
                 ↔ nrows df * length key_fields = 0).
    { rewrite <- length_zero_iff_nil. nia. }
    rewrite Hz.
    destruct (nrows df * length key_fields) as [|d] eqn:Hd.
    + assert (H0 : sum_list (null_count <$> cols) = 0) by lia.
      rewrite H0. by cbn.
    + rewrite true_divide_pos by lia. cbn. split; [done | lia].
Qed.

(** X27. The number of distinct values reported by [nunique] is the
    number of entries of [value_counts] of the same column: both list
    exactly the values of the non-null cells, so the count is at most the
    number of non-null cells and is 0 exactly when every cell is null. *)
Theorem nunique_value_counts (col : column) :
  dom (value_counts col) = id_set col
  ∧ nunique col = size (value_counts col)
  ∧ nunique col ≤ cancelled_transactions col
  ∧ (nunique col = 0 ↔ Forall (λ x, x = None) col).
Proof.
  assert (Hdom : dom (value_counts col) = id_set col).
  { apply set_eq. intros s.
    by rewrite elem_of_dom, id_set_elem, value_counts_is_Some. }
  assert (Hsize : nunique col = size (value_counts col)).
  { unfold nunique. by rewrite <- Hdom, size_dom. }
  split; [done|]. split; [done|]. split.
  - rewrite Hsize.
    etrans; [apply size_le_total, value_counts_positive|].
    unfold value_counts, dropna. fold (cancelled_data col).
    rewrite counts_total_foldl, cancelled_transactions_data.
    assert (H0 : counter_total ∅ = 0) by reflexivity. lia.
  - rewrite <- id_set_empty_iff. unfold nunique. split.
    + intros H. by apply leibniz_equiv, size_empty_inv.
    + intros ->. apply size_empty.
Qed.

Lemma quality_errors_witness :
  completeness sample_frame community_key_fields = Returned SNaN
  ↔ nrows sample_frame = 0 ∨ community_key_fields = [].
Proof.
  destruct (quality_errors sample_frame community_key_fields)
    as (_ & _ & _ & _ & H).
  apply H.
  - apply (bool_decide_unpack _). vm_compute. reflexivity.
  - apply (bool_decide_unpack _). vm_compute. reflexivity.
Defined.

(** ** The token after the marker *)





